(** * Surgical-video phase extractors: timeline, naming and sampling

    A shallow embedding of the five scripts of the repository

      - [Extractor/Cataract1k.py]            (module [Cataract1k])
      - [Extractor/cataract21_subvideo.py]   (module [Cataract21])
      - [Extractor/cataract101_subvideo.py]  (module [Cataract101])
      - [frame_extractor.py]                 (module [FrameExtractor])
      - [phase_csv.py]                       (module [PhaseCsv])

    followed by the properties of the timeline builders, the segment
    naming, the frame sampler and the splitters.

    Conventions of the embedding.
      - A pandas data frame is the list of its rows, in positional order;
        a row is a record with one field per column that the code reads.
      - Frame numbers are [Z] (Python integers).  Time columns and the
        frame rate are exact rationals [Q]; Python holds their binary
        floating-point roundings.
      - A [dict] keyed by phase names is a [gmap string _]; the
        [defaultdict(int)] of occurrence counters reads 0 on a missing key.
      - [cv2.VideoCapture] is a record giving, for every frame position,
        whether [read()] succeeds there; a decoded frame is identified with
        its position.  A released [cv2.VideoWriter] is the record of the
        path it was opened on and the frames written to it, in order. *)

From Stdlib Require Import ZArith QArith Qround Lqa List Sorted Ascii String Lia.
From stdpp Require Import base decidable option list strings pretty gmap.

Open Scope Z_scope.
Open Scope string_scope.

(** ** Python and OpenCV primitives shared by the scripts *)

(** Exceptions the modelled code can raise. *)
Inductive exn : Type :=
  | ValueError
  | IndexError
  | KeyError
  | TypeError
  | ZeroDivisionError.

(** [os.path.join(a, b)] of [posixpath]. *)
Definition starts_with_sep (b : string) : bool :=
  match b with
  | String c _ => Ascii.eqb c "/"
  | EmptyString => false
  end.

Fixpoint ends_with_sep (a : string) : bool :=
  match a with
  | EmptyString => false
  | String c EmptyString => Ascii.eqb c "/"
  | String _ r => ends_with_sep r
  end.

Definition os_path_join (a b : string) : string :=
  if starts_with_sep b then b
  else if (String.eqb a "" || ends_with_sep a)%bool then a ++ b
  else a ++ "/" ++ b.

(** [os.path.basename(p)]: what follows the last ["/"]. *)
Fixpoint basename_from (component p : string) : string :=
  match p with
  | EmptyString => component
  | String c r =>
      if Ascii.eqb c "/" then basename_from EmptyString r
      else basename_from (component ++ String c EmptyString) r
  end.

Definition os_path_basename (p : string) : string :=
  basename_from EmptyString p.

(** The character class [\d], on ASCII. *)
Definition is_digit (c : ascii) : bool :=
  let n := N_of_ascii c in ((48 <=? n) && (n <=? 57))%N.

Definition ascii_lower (c : ascii) : ascii :=
  let n := N_of_ascii c in
  if ((65 <=? n) && (n <=? 90))%N then ascii_of_N (n + 32) else c.

(** [s] starts with the literal [lit], letters compared without case. *)
Fixpoint prefix_ignorecase (lit s : string) : option string :=
  match lit, s with
  | EmptyString, _ => Some s
  | String a lit', String b s' =>
      if Ascii.eqb (ascii_lower a) (ascii_lower b)
      then prefix_ignorecase lit' s' else None
  | String _ _, EmptyString => None
  end.

(** The greedy group [(\d+)] at the head of [s]. *)
Fixpoint take_digits (s : string) : string :=
  match s with
  | String c r => if is_digit c then String c (take_digits r) else EmptyString
  | EmptyString => EmptyString
  end.

Definition match_case_here (s : string) : option string :=
  match prefix_ignorecase "case_" s with
  | Some rest =>
      match take_digits rest with
      | EmptyString => None
      | d => Some d
      end
  | None => None
  end.

(** [re.search(r'case_(\d+)', filename, re.IGNORECASE)]: leftmost match. *)
Fixpoint re_search_case (s : string) : option string :=
  match match_case_here s with
  | Some d => Some d
  | None =>
      match s with
      | EmptyString => None
      | String _ r => re_search_case r
      end
  end.

(** [get_case_number_from_filename], the same in the three extractors. *)
Definition get_case_number_from_filename (filename : string) : exn + string :=
  match re_search_case filename with
  | Some d => inr d
  | None => inl ValueError
  end.

(** [int(s)] on a string of decimal digits (what [\d+] captured). *)
Fixpoint int_of_digits_go (acc : N) (s : string) : option N :=
  match s with
  | EmptyString => Some acc
  | String c r =>
      if is_digit c
      then int_of_digits_go (acc * 10 + (N_of_ascii c - 48))%N r
      else None
  end.

Definition py_int_of_str (s : string) : exn + N :=
  match s with
  | EmptyString => inl ValueError
  | _ => match int_of_digits_go 0%N s with
         | Some n => inr n
         | None => inl ValueError
         end
  end.

(** The format spec [:04d] on a non-negative integer: decimal digits,
    zeros added on the left up to a width of four. *)
Fixpoint zeros (k : nat) : string :=
  match k with
  | O => EmptyString
  | S k' => String "0" (zeros k')
  end.

Definition format_04d (n : N) : string :=
  let d := pretty n in
  zeros (4 - String.length d) ++ d.

(** [int(x)] on a float: truncation towards zero. *)
Definition py_int (x : Q) : Z := Z.quot (Qnum x) (Zpos (Qden x)).

(** A video as [cv2.VideoCapture] presents it. *)
Record VideoCapture : Type := {
  isOpened : bool;
  CAP_PROP_FPS : Q;
  CAP_PROP_FRAME_WIDTH : Z;
  CAP_PROP_FRAME_HEIGHT : Z;
  CAP_PROP_FRAME_COUNT : Z;
  decodes : Z -> bool   (* does read() succeed at this position *)
}.

(** A [cv2.VideoWriter] after [release()]. *)
Record VideoWriter : Type := {
  output_path : string;
  writer_fps : Q;
  writer_frame_size : Z * Z;
  written : list Z
}.

(** The inner loop of the interval splitters,
      [for frame_number in range(start_frame, end_frame + 1):
           ret, frame = cap.read()
           if not ret: break
           writer.write(frame)]
    after [cap.set(CAP_PROP_POS_FRAMES, start_frame)]: [n] iterations are
    left, the capture stands at [pos]. *)
Fixpoint write_frames (cap : VideoCapture) (n : nat) (pos : Z) : list Z :=
  match n with
  | O => []
  | S n' =>
      if decodes cap pos then pos :: write_frames cap n' (pos + 1)
      else []
  end.

Definition copy_range (cap : VideoCapture) (start_frame end_frame : Z) : list Z :=
  write_frames cap (Z.to_nat (end_frame + 1 - start_frame)) start_frame.

(** [phase_counters[phase] += 1] on a [defaultdict(int)]. *)
Definition counter_get (phase_counters : gmap string N) (phase : string) : N :=
  default 0%N (phase_counters !! phase).

Definition counter_incr (phase_counters : gmap string N) (phase : string)
  : gmap string N :=
  <[phase := (counter_get phase_counters phase + 1)%N]> phase_counters.

(** The tail shared by the three [create_writer]: the occurrence suffix,
    present when the counter (already incremented) exceeds 1, and the
    extension. *)
Definition occurrence_suffix (count : N) : string :=
  if (1 <? count)%N then "_" ++ pretty count else "".

(** ** Extractor/Cataract1k.py *)

Module Cataract1k.

(** [PHASE_MAPPING] *)
Definition PHASE_MAPPING : gmap string string :=
  list_to_map
    [ ("Viscoelastic", "Viscoelastic");
      ("Capsulorhexis", "Capsulorhexis");
      ("Hydrodissection", "Hydrodissection");
      ("Phacoemulsification", "Phaco");
      ("Irrigation/Aspiration", "IrrigationAspiration");
      ("Capsule Pulishing", "CortexRemoval");
      ("Lens Implantation", "LensImplantation");
      ("Lens positioning", "LensPositioning");
      ("Viscoelastic_Suction", "ViscoelasticSuction");
      ("Tonifying/Antibiotics", "TonifyingAntibiotics");
      ("Anterior_Chamber Flushing", "AnteriorChamberFlushing") ].

(** [map_phase_name]: [PHASE_MAPPING.get(phase_name, phase_name)] *)
Definition map_phase_name (phase_name : string) : string :=
  default phase_name (PHASE_MAPPING !! phase_name).

(** A row of the annotation table (the columns the script reads). *)
Record Row : Type := {
  caseId : string;
  comment : string;
  frame : Z;
  endFrame : Z;
  sec : Q;
  endSec : Q
}.

Definition idle_phase (current_row next_row : Row) : Row :=
  {| caseId := caseId current_row;
     comment := "Idle";
     frame := endFrame current_row + 1;
     endFrame := frame next_row - 1;
     sec := endSec current_row;
     endSec := sec next_row |}.

(** The loop [for i in range(len(df) - 1)] of [insert_idle_phases], with
    [current_row = df.iloc[i]] and [next_row = df.iloc[i + 1]]: what it
    appends to [new_rows]. *)
Fixpoint idle_loop (df : list Row) : list Row :=
  match df with
  | current_row :: ((next_row :: _) as rest) =>
      let frame_gap := frame next_row - endFrame current_row - 1 in
      (current_row ::
         (if (0 <? frame_gap)%Z then [idle_phase current_row next_row] else []))
      ++ idle_loop rest
  | _ => []
  end%list.

(** [insert_idle_phases]; [df.iloc[-1]] raises on an empty frame. *)
Definition insert_idle_phases (df : list Row) : exn + list Row :=
  match last df with
  | Some last_row => inr (idle_loop df ++ [last_row])%list
  | None => inl IndexError
  end.

(** The file name built by [create_writer] once the counter of [phase]
    has been incremented to [count]. *)
Definition output_filename (case_number : N) (phase : string) (count : N)
  : string :=
  "Cataract1k_" ++ ("ID" ++ format_04d case_number) ++ "_" ++ phase
    ++ occurrence_suffix count ++ ".mp4".

(** [create_writer]: the updated counters, the directory it makes and the
    path the writer is opened on.  [int(case_number)] can raise. *)
Definition create_writer (phase case_number : string)
    (phase_counters : gmap string N) (output_base_dir : string)
  : exn + (gmap string N * string * string) :=
  let phase_counters := counter_incr phase_counters phase in
  match py_int_of_str case_number with
  | inl e => inl e
  | inr n =>
      let output_filename :=
        output_filename n phase (counter_get phase_counters phase) in
      let phase_dir := os_path_join output_base_dir phase in
      let output_path := os_path_join phase_dir output_filename in
      inr (phase_counters, phase_dir, output_path)
  end.

(** What a run of [process_video] leaves behind. *)
Inductive outcome : Type :=
  | Raised (e : exn)
  | NotOpened                                  (* prints and returns *)
  | Completed (dirs : list string) (videos : list VideoWriter).

(** The loop [for idx, row in df.iterrows()] of [process_video]. *)
Fixpoint split_rows (cap : VideoCapture) (case_number output_base_dir : string)
    (phase_counters : gmap string N) (df : list Row)
  : exn + (list string * list VideoWriter) :=
  match df with
  | [] => inr ([], [])
  | row :: df' =>
      let original_phase := comment row in
      let start_frame := frame row in
      let end_frame := endFrame row in
      let phase := map_phase_name original_phase in
      match create_writer phase case_number phase_counters output_base_dir with
      | inl e => inl e
      | inr (phase_counters, phase_dir, output_path) =>
          let writer :=
            {| output_path := output_path;
               writer_fps := CAP_PROP_FPS cap;
               writer_frame_size :=
                 (CAP_PROP_FRAME_WIDTH cap, CAP_PROP_FRAME_HEIGHT cap);
               written := copy_range cap start_frame end_frame |} in
          match split_rows cap case_number output_base_dir phase_counters df' with
          | inl e => inl e
          | inr (dirs, videos) => inr (phase_dir :: dirs, writer :: videos)
          end
      end
  end.

(** [process_video]; [df] is what [pd.read_csv(csv_file)] returned. *)
Definition process_video (video_file : string) (df : list Row)
    (cap : VideoCapture) (output_base_dir : string) : outcome :=
  match get_case_number_from_filename (os_path_basename video_file) with
  | inl e => Raised e
  | inr case_number =>
      match insert_idle_phases df with
      | inl e => Raised e
      | inr df =>
          if negb (isOpened cap) then NotOpened
          else
            match split_rows cap case_number output_base_dir ∅ df with
            | inl e => Raised e
            | inr (dirs, videos) => Completed dirs videos
            end
      end
  end.

End Cataract1k.

(** ** Extractor/cataract21_subvideo.py *)

Module Cataract21.

(** A row of the per-frame table, as [read_csv] names its columns. *)
Record Row : Type := {
  Frame_Number : Z;
  Phase_Name : string
}.

(** [phase_mapping] of [map_phases] *)
Definition phase_mapping : gmap string string :=
  list_to_map
    [ ("not_initialized", "Idle");
      ("Incision", "Incision");
      ("Viscoelasticum", "Viscoelastic");
      ("Rhexis", "Capsulorhexis");
      ("Hydrodissektion", "Hydrodissection");
      ("Phako", "Phaco");
      ("Irrigation-Aspiration", "Irrigation");
      ("Kapselpolishing", "CortexRemoval");
      ("Linsenimplantation", "LensImplantation");
      ("Visco-Absaugung", "ViscoelasticSuction");
      ("Tonisieren", "TonifyingAntibiotic_1");
      ("Antibiotikum", "TonifyingAntibiotic_2") ].

(** [map_phases]: [df['Phase Name'].replace(phase_mapping)] *)
Definition map_phases (df : list Row) : list Row :=
  map (fun row =>
         {| Frame_Number := Frame_Number row;
            Phase_Name := default (Phase_Name row)
                            (phase_mapping !! Phase_Name row) |}) df.

(** The file name of [create_writer]; the case number goes in as the
    string the regular expression captured. *)
Definition output_filename (case_number phase : string) (count : N) : string :=
  "Cataract21_ID00" ++ case_number ++ "_" ++ phase
    ++ occurrence_suffix count ++ ".mp4".

Definition create_writer (phase : string) (phase_counters : gmap string N)
    (case_number output_base_dir : string)
  : gmap string N * string * string :=
  let phase_counters := counter_incr phase_counters phase in
  let output_filename :=
    output_filename case_number phase (counter_get phase_counters phase) in
  let phase_dir := os_path_join output_base_dir phase in
  let output_path := os_path_join phase_dir output_filename in
  (phase_counters, phase_dir, output_path).

(** The local variables of [process_video] during the frame loop.  The
    writer objects live in [videos], in the order they were created,
    each with the phase it was created for; the dict [writers] refers to
    them by position. *)
Record state : Type := {
  phase_counters : gmap string N;
  writers : gmap string nat;
  previous_phase : option string;
  start_frame : option Z;
  dirs : list string;
  videos : list (string * VideoWriter)
}.

Definition initial_state : state :=
  {| phase_counters := ∅; writers := ∅; previous_phase := None;
     start_frame := None; dirs := []; videos := [] |}.

(** [writer.write(frame)] *)
Definition write_to (frame : Z) (v : string * VideoWriter)
  : string * VideoWriter :=
  (v.1, {| output_path := output_path v.2;
           writer_fps := writer_fps v.2;
           writer_frame_size := writer_frame_size v.2;
           written := (written v.2 ++ [frame])%list |}).

(** The branch [if phase != previous_phase] of the frame loop. *)
Definition open_phase (cap : VideoCapture) (case_number output_base_dir : string)
    (phase : string) (frame_number : Z) (st : state) : state :=
  let '(counters, phase_dir, path) :=
    create_writer phase (phase_counters st) case_number output_base_dir in
  let writer :=
    {| output_path := path;
       writer_fps := CAP_PROP_FPS cap;
       writer_frame_size :=
         (CAP_PROP_FRAME_WIDTH cap, CAP_PROP_FRAME_HEIGHT cap);
       written := [] |} in
  {| phase_counters := counters;
     writers := <[phase := length (videos st)]> (writers st);
     previous_phase := previous_phase st;
     start_frame := Some frame_number;
     dirs := (dirs st ++ [phase_dir])%list;
     videos := (videos st ++ [(phase, writer)])%list |}.

(** One iteration of [for frame_number in range(frames_to_process)] once
    [cap.read()] has returned a frame. *)
Definition frame_step (cap : VideoCapture) (case_number output_base_dir : string)
    (df : list Row) (frame_number : Z) (st : state) : exn + state :=
  match df !! Z.to_nat frame_number with
  | None => inl KeyError
  | Some row =>
      let phase := Phase_Name row in
      let st :=
        if decide (Some phase = previous_phase st) then st
        else open_phase cap case_number output_base_dir phase frame_number st in
      match writers st !! phase with
      | None => inl KeyError
      | Some w =>
          inr {| phase_counters := phase_counters st;
                 writers := writers st;
                 previous_phase := Some phase;
                 start_frame := start_frame st;
                 dirs := dirs st;
                 videos := alter (write_to frame_number) w (videos st) |}
      end
  end.

(** The frame loop: [n] iterations left, the next one at [frame_number];
    the capture is read in sequence from its first frame, so it stands
    at [frame_number] too.  A failed [read()] leaves the loop. *)
Fixpoint frame_loop (cap : VideoCapture) (case_number output_base_dir : string)
    (df : list Row) (n : nat) (frame_number : Z) (st : state) : exn + state :=
  match n with
  | O => inr st
  | S n' =>
      if decodes cap frame_number then
        match frame_step cap case_number output_base_dir df frame_number st with
        | inl e => inl e
        | inr st => frame_loop cap case_number output_base_dir df n'
                      (frame_number + 1) st
        end
      else inr st
  end.

Inductive outcome : Type :=
  | Raised (e : exn)
  | NotOpened
  | Completed (dirs : list string) (videos : list (string * VideoWriter)).

(** [process_video]; [df] is what [read_csv] returned. *)
Definition process_video (video_file : string) (df : list Row)
    (cap : VideoCapture) (output_base_dir : string) : outcome :=
  match get_case_number_from_filename (os_path_basename video_file) with
  | inl e => Raised e
  | inr case_number =>
      let df := map_phases df in
      if negb (isOpened cap) then NotOpened
      else
        let total_frames := CAP_PROP_FRAME_COUNT cap in
        let frames_to_process := Z.min total_frames (Z.of_nat (length df)) in
        match frame_loop cap case_number output_base_dir df
                (Z.to_nat frames_to_process) 0 initial_state with
        | inl e => Raised e
        | inr st => Completed (dirs st) (videos st)
        end
  end.

End Cataract21.

(** ** Extractor/cataract101_subvideo.py *)

Module Cataract101.

(** A row of the per-case table written by [generate_csv_files]. *)
Record Row : Type := {
  FrameNo : Z;
  Phase : Z
}.

(** [phase_mapping] of [map_phase_numbers_to_names] *)
Definition phase_mapping : gmap Z string :=
  list_to_map
    [ (0, "Idle"); (1, "Incision"); (2, "Viscoelastic");
      (3, "Capsulorhexis"); (4, "Hydrodissection");
      (5, "Phacoemulsification"); (6, "IrrigationAspiration");
      (7, "CortexRemoval"); (8, "LensImplantation");
      (9, "ViscoelasticSuction"); (10, "TonifyingAntibiotic") ].

(** [df['Phase'].map(phase_mapping)]: a number outside the table gives
    NaN, here [None]. *)
Definition map_phase_numbers_to_names (df : list Row)
  : list (Row * option string) :=
  map (fun row => (row, phase_mapping !! Phase row)) df.

Definition output_filename (case_number : N) (phase : string) (count : N)
  : string :=
  "Cataract101_" ++ ("ID" ++ format_04d case_number) ++ "_" ++ phase
    ++ occurrence_suffix count ++ ".mp4".

(** [create_writer]; [int(case_number)] can raise, and so does
    [os.path.join] when the phase is NaN. *)
Definition create_writer (phase : option string)
    (phase_counters : gmap string N) (case_number output_base_dir : string)
  : exn + (gmap string N * string * string) :=
  match py_int_of_str case_number with
  | inl e => inl e
  | inr n =>
      match phase with
      | None => inl TypeError
      | Some phase =>
          let phase_counters := counter_incr phase_counters phase in
          let output_filename :=
            output_filename n phase (counter_get phase_counters phase) in
          let phase_dir := os_path_join output_base_dir phase in
          let output_path := os_path_join phase_dir output_filename in
          inr (phase_counters, phase_dir, output_path)
      end
  end.

(** What the loop reports for one row: the line
    [Saved video for phase ... from frame ... to ...] and the video. *)
Record Saved : Type := {
  saved_phase : string;
  saved_start : Z;
  saved_end : Z;
  saved_dir : string;
  saved_video : VideoWriter
}.

(** The loop [for idx, row in df.iterrows()] of [process_video]; the
    rows from [idx] on are [row :: rest], so [idx + 1 < len(df)] says
    that [rest] has a first row, which is [df.loc[idx + 1]]. *)
Fixpoint split_rows (cap : VideoCapture) (case_number output_base_dir : string)
    (total_frames : Z) (phase_counters : gmap string N)
    (df : list (Row * option string)) : exn + list Saved :=
  match df with
  | [] => inr []
  | (row, phase_name) :: rest =>
      let start_frame := FrameNo row in
      let end_frame :=
        match rest with
        | (next_row, _) :: _ => FrameNo next_row - 1
        | [] => total_frames - 1
        end in
      match create_writer phase_name phase_counters case_number
              output_base_dir with
      | inl e => inl e
      | inr (phase_counters, phase_dir, output_path) =>
          let writer :=
            {| output_path := output_path;
               writer_fps := CAP_PROP_FPS cap;
               writer_frame_size :=
                 (CAP_PROP_FRAME_WIDTH cap, CAP_PROP_FRAME_HEIGHT cap);
               written := copy_range cap start_frame end_frame |} in
          match split_rows cap case_number output_base_dir total_frames
                  phase_counters rest with
          | inl e => inl e
          | inr saved =>
              inr ({| saved_phase := default "nan" phase_name;
                      saved_start := start_frame;
                      saved_end := end_frame; saved_dir := phase_dir;
                      saved_video := writer |} :: saved)
          end
      end
  end.

Inductive outcome : Type :=
  | Raised (e : exn)
  | NotOpened
  | Completed (saved : list Saved).

Definition process_video (video_file : string) (df : list Row)
    (cap : VideoCapture) (output_base_dir : string) : outcome :=
  match get_case_number_from_filename (os_path_basename video_file) with
  | inl e => Raised e
  | inr case_number =>
      let df := map_phase_numbers_to_names df in
      if negb (isOpened cap) then NotOpened
      else
        let total_frames := CAP_PROP_FRAME_COUNT cap in
        match split_rows cap case_number output_base_dir total_frames ∅ df with
        | inl e => Raised e
        | inr saved => Completed saved
        end
  end.

End Cataract101.

(** ** frame_extractor.py *)

Module FrameExtractor.

Definition MAX_FRAMES : Z := 15.
Definition MIN_SAMPLING_RATE : Q := 3 # 10.

(** A row of the phase table: [comment], [sec], [endsec]. *)
Record Row : Type := {
  comment : string;
  sec : Q;
  endsec : Q
}.

(** The step between two samples:
      [sampling_rate = total_frames / max_frames]
      [if sampling_rate < min_sampling_rate * fps:
           sampling_rate = min_sampling_rate * fps] *)
Definition sampling_rate (total_frames max_frames : Z)
    (min_sampling_rate fps : Q) : exn + Q :=
  if (max_frames =? 0)%Z then inl ZeroDivisionError
  else
    let sampling_rate := (inject_Z total_frames / inject_Z max_frames)%Q in
    if Qlt_le_dec sampling_rate (min_sampling_rate * fps)%Q
    then inr (min_sampling_rate * fps)%Q
    else inr sampling_rate.

(** The loop [for i in range(max_frames)]: [n] iterations left, the next
    one with index [i]; the frame numbers it seeks to, in order. *)
Fixpoint sample_loop (start_frame end_frame : Z) (sampling_rate : Q)
    (n : nat) (i : Z) : list Z :=
  match n with
  | O => []
  | S n' =>
      let frame_num :=
        py_int (inject_Z start_frame + inject_Z i * sampling_rate)%Q in
      if (end_frame <? frame_num)%Z then []
      else frame_num :: sample_loop start_frame end_frame sampling_rate n' (i + 1)
  end.

(** The frame numbers sampled in a phase from [start_frame] to
    [end_frame]; [None] is the skipped phase ([total_frames <= 0]). *)
Definition frame_indices (start_frame end_frame max_frames : Z)
    (min_sampling_rate fps : Q) : exn + option (list Z) :=
  let total_frames := end_frame - start_frame in
  if (total_frames <=? 0)%Z then inr None
  else
    match sampling_rate total_frames max_frames min_sampling_rate fps with
    | inl e => inl e
    | inr sampling_rate =>
        inr (Some (sample_loop start_frame end_frame sampling_rate
                     (Z.to_nat max_frames) 0))
    end.

(** [ARAS_{case_id}_{phase_name}_{frame_num}.png] under the phase's
    directory. *)
Definition frame_filename (output_dir case_id phase_name : string)
    (frame_num : Z) : string :=
  os_path_join (os_path_join (os_path_join output_dir case_id) phase_name)
    ("ARAS_" ++ case_id ++ "_" ++ phase_name ++ "_" ++ pretty frame_num
       ++ ".png").

(** The body of [for _, row in df.iterrows()]: the images written for
    one row.  A frame that cannot be read is passed over. *)
Definition save_phase (cap : VideoCapture) (case_id output_dir : string)
    (max_frames : Z) (min_sampling_rate : Q) (row : Row)
  : exn + list (string * Z) :=
  let fps := CAP_PROP_FPS cap in
  let phase_name := comment row in
  let start_frame := py_int (sec row * fps)%Q in
  let end_frame := py_int (endsec row * fps)%Q in
  match frame_indices start_frame end_frame max_frames min_sampling_rate fps with
  | inl e => inl e
  | inr None => inr []
  | inr (Some indices) =>
      inr (map (fun frame_num =>
                  (frame_filename output_dir case_id phase_name frame_num,
                   frame_num))
             (filter (fun frame_num => decodes cap frame_num = true) indices))
  end.

Fixpoint save_rows (cap : VideoCapture) (case_id output_dir : string)
    (max_frames : Z) (min_sampling_rate : Q) (df : list Row)
  : exn + list (string * Z) :=
  match df with
  | [] => inr []
  | row :: df' =>
      match save_phase cap case_id output_dir max_frames min_sampling_rate row with
      | inl e => inl e
      | inr images =>
          match save_rows cap case_id output_dir max_frames
                  min_sampling_rate df' with
          | inl e => inl e
          | inr more => inr (images ++ more)%list
          end
      end
  end.

(** [save_frames], from the opening of the video on; [case_id] is the
    video's file name without its extension.  [None]: the function
    printed an error and returned. *)
Definition save_frames (cap : VideoCapture) (case_id : string)
    (df : list Row) (output_dir : string) (max_frames : Z)
    (min_sampling_rate : Q) : exn + option (list (string * Z)) :=
  if negb (isOpened cap) then inr None
  else if Qeq_bool (CAP_PROP_FPS cap) 0 then inr None
  else
    match save_rows cap case_id output_dir max_frames min_sampling_rate df with
    | inl e => inl e
    | inr images => inr (Some images)
    end.

End FrameExtractor.

(** ** phase_csv.py *)

Module PhaseCsv.

(** A row of the phase table; the columns are [case], [phase name],
    [Start Frame], [End Frame], [Start Time (s)], [End Time (s)]. *)
Record Row : Type := {
  case : string;
  phase_name : string;
  Start_Frame : Z;
  End_Frame : Z;
  Start_Time : Q;
  End_Time : Q
}.

(** [df.sort_values('Start Frame')], as an insertion sort that keeps
    rows of equal key in their order.  (pandas' default sort is free to
    order equal keys otherwise; where the keys are pairwise different
    there is one sorted order.) *)
Fixpoint insert_by_start (row : Row) (sorted : list Row) : list Row :=
  match sorted with
  | [] => [row]
  | r :: sorted' =>
      if (Start_Frame row <=? Start_Frame r)%Z then row :: r :: sorted'
      else r :: insert_by_start row sorted'
  end.

Definition sort_values (df : list Row) : list Row :=
  foldr insert_by_start [] df.

(** The loop [for i in range(len(df))] of [process_phases]: the rows
    from [i] on are [row :: rest]. *)
Fixpoint phases_loop (video_name : string) (df : list Row) : list Row :=
  match df with
  | [] => []
  | row :: rest =>
      (row ::
         match rest with
         | next :: _ =>
             let current_end := End_Frame row in
             let next_start := Start_Frame next in
             if (1 <? next_start - current_end)%Z
             then [ {| case := video_name;
                       phase_name := "Idle";
                       Start_Frame := current_end + 1;
                       End_Frame := next_start - 1;
                       Start_Time := (inject_Z (current_end + 1) / 60)%Q;
                       End_Time := (inject_Z (next_start - 1) / 60)%Q |} ]
             else []
         | [] => []
         end)
      ++ phases_loop video_name rest
  end%list.

(** [process_phases]: the table written to
    [{video_name}_phases_with_idle.csv].  [df['case'].iloc[0]] raises on
    an empty table. *)
Definition process_phases (df : list Row) : exn + list Row :=
  match df with
  | [] => inl IndexError
  | first :: _ =>
      let video_name := case first in
      let df := sort_values df in
      match df with
      | [] => inl IndexError
      | first :: _ =>
          let all_phases :=
            (if (0 <? Start_Frame first)%Z
             then [ {| case := video_name;
                       phase_name := "Idle";
                       Start_Frame := 0;
                       End_Frame := Start_Frame first - 1;
                       Start_Time := 0%Q;
                       End_Time := (inject_Z (Start_Frame first - 1) / 60)%Q |} ]
             else [])%list in
          let all_phases := (all_phases ++ phases_loop video_name df)%list in
          inr (sort_values all_phases)
      end
  end.

End PhaseCsv.

(** ** The batch driver of Extractor/Cataract1k.py *)

(** [s.endswith(suffix)] *)
Definition endswith (s suffix : string) : bool :=
  (String.length suffix <=? String.length s)%nat
  && String.eqb
       (substring (String.length s - String.length suffix)
          (String.length suffix) s)
       suffix.

Module Cataract1kBatch.

(** What [process_all_videos] did with one annotation file: it ran
    [process_video], which returned, or it printed the warning that the
    video is missing. *)
Inductive report : Type :=
  | Ran (video_file csv_file : string) (result : Cataract1k.outcome)
  | Missing (csv_file : string).

(** The world [process_all_videos] runs in: what [pd.read_csv] returns
    for a path, and the video found at a path, if [os.path.exists]. *)
Record world : Type := {
  read_csv : string -> list Cataract1k.Row;
  video_at : string -> option VideoCapture
}.

(** The loop [for file in files] for one directory [root] of the walk:
    the reports made, and the exception that ended the loop, if any. *)
Fixpoint process_files (env : world) (video_dir output_base_dir root : string)
    (files : list string) : list report * option exn :=
  match files with
  | [] => ([], None)
  | file :: files' =>
      if endswith file "_annotations_phases.csv" then
        let csv_file := os_path_join root file in
        match get_case_number_from_filename file with
        | inl e => ([], Some e)
        | inr case_number =>
            let video_file :=
              os_path_join video_dir ("case_" ++ case_number ++ ".mp4") in
            match video_at env video_file with
            | Some cap =>
                match Cataract1k.process_video video_file (read_csv env csv_file)
                        cap output_base_dir with
                | Cataract1k.Raised e => ([], Some e)
                | result =>
                    let (reports, e) :=
                      process_files env video_dir output_base_dir root files' in
                    (Ran video_file csv_file result :: reports, e)
                end
            | None =>
                let (reports, e) :=
                  process_files env video_dir output_base_dir root files' in
                (Missing csv_file :: reports, e)
            end
        end
      else process_files env video_dir output_base_dir root files'
  end.

(** [process_all_videos]; [walk] is what [os.walk(annotations_dir)]
    yields, a directory and the names of its files at a time. *)
Fixpoint process_all_videos (env : world) (walk : list (string * list string))
    (video_dir output_base_dir : string) : list report * option exn :=
  match walk with
  | [] => ([], None)
  | (root, files) :: walk' =>
      match process_files env video_dir output_base_dir root files with
      | (reports, Some e) => (reports, Some e)
      | (reports, None) =>
          let (more, e) :=
            process_all_videos env walk' video_dir output_base_dir in
          ((reports ++ more)%list, e)
      end
  end.

End Cataract1kBatch.

(** A string without ["/"]. *)
Fixpoint no_sep (s : string) : bool :=
  match s with
  | EmptyString => true
  | String c r => negb (Ascii.eqb c "/") && no_sep r
  end.

(** ** [generate_csv_files] of Extractor/cataract101_subvideo.py *)

Module Cataract101Csv.

(** A row of the main table: [VideoID], [FrameNo], [Phase]. *)
Record Row : Type := {
  VideoID : Z;
  FrameNo : Z;
  Phase : Z
}.

(** [group.sort_values(by='FrameNo')], as an insertion sort that keeps
    rows of equal key in their order. *)
Fixpoint insert_by_frame (row : Row) (sorted : list Row) : list Row :=
  match sorted with
  | [] => [row]
  | r :: sorted' =>
      if (FrameNo row <=? FrameNo r)%Z then row :: r :: sorted'
      else r :: insert_by_frame row sorted'
  end.

Definition sort_values (group : list Row) : list Row :=
  foldr insert_by_frame [] group.

(** The group of [video_id] in [df.groupby('VideoID')]. *)
Definition group_of (df : list Row) (video_id : Z) : list Row :=
  filter (fun row => VideoID row = video_id) df.

(** The table written for [video_id]: the Idle row, then the group's
    columns [FrameNo] and [Phase], sorted. *)
Definition table_of (df : list Row) (video_id : Z) : list Cataract101.Row :=
  {| Cataract101.FrameNo := 0; Cataract101.Phase := 0 |}
  :: map (fun row => {| Cataract101.FrameNo := FrameNo row;
                        Cataract101.Phase := Phase row |})
       (sort_values (group_of df video_id)).

(** [generate_csv_files]: the files it leaves in [output_directory], one
    per video of the main table, as a map from path to table. *)
Definition generate_csv_files (df : list Row) (output_directory : string)
  : gmap string (list Cataract101.Row) :=
  list_to_map
    (map (fun row =>
            (os_path_join output_directory
               ("case_" ++ pretty (VideoID row) ++ ".csv"),
             table_of df (VideoID row)))
       df).

End Cataract101Csv.

(** ** Timelines *)

(** A timeline is the sequence of the frame ranges [(startFrame, endFrame)]
    of its intervals. *)
Definition timeline : Type := list (Z * Z).


Definition timeline_csv (df : list PhaseCsv.Row) : timeline :=
  map (fun row => (PhaseCsv.Start_Frame row, PhaseCsv.End_Frame row)) df.

(** Every consecutive pair satisfies [endFrame[i] + 1 == startFrame[i+1]]. *)
Definition gap_free (tl : timeline) : Prop :=
  forall (i : nat) (a b : Z * Z),
    tl !! i = Some a -> tl !! S i = Some b -> a.2 + 1 = b.1.

Definition first_start (tl : timeline) : option Z := fst <$> head tl.
Definition last_end (tl : timeline) : option Z := snd <$> last tl.


(** Each row ends before the next one starts. *)
Fixpoint separated (tl : timeline) : Prop :=
  match tl with
  | a :: ((b :: _) as rest) => a.2 < b.1 /\ separated rest
  | _ => True
  end.

(** No row ends before it starts. *)
Definition well_formed (tl : timeline) : Prop :=
  Forall (fun a => a.1 <= a.2) tl.

(** [chain s tl e]: [tl] runs from frame [s] to frame [e] without a gap
    or an overlap. *)
Inductive chain : Z -> timeline -> Z -> Prop :=
  | chain_one (s e : Z) : chain s [(s, e)] e
  | chain_cons (s e e' : Z) (tl : timeline) :
      chain (e + 1) tl e' -> chain s ((s, e) :: tl) e'.


(** Rows of the examples. *)
Definition row1k (label : string) (s e : Z) : Cataract1k.Row :=
  {| Cataract1k.caseId := "1"; Cataract1k.comment := label;
     Cataract1k.frame := s; Cataract1k.endFrame := e;
     Cataract1k.sec := 0; Cataract1k.endSec := 0 |}.


Definition row_csv (label : string) (s e : Z) : PhaseCsv.Row :=
  {| PhaseCsv.case := "v"; PhaseCsv.phase_name := label;
     PhaseCsv.Start_Frame := s; PhaseCsv.End_Frame := e;
     PhaseCsv.Start_Time := 0; PhaseCsv.End_Time := 0 |}.

Definition rows_csv (s1 e1 s2 e2 : Z) : list PhaseCsv.Row :=
  [ row_csv "X" s1 e1; row_csv "Y" s2 e2 ].

(** ** Sampling *)

(** The position that iteration [i] of the sampling loop truncates to a
    frame number. *)
Definition position (start_frame : Z) (rate : Q) (i : Z) : Q :=
  (inject_Z start_frame + inject_Z i * rate)%Q.

(** ** Naming convention *)

(** The convention of the specification,
    ["{DatasetTag}_ID{caseNumber:04d}_{canonicalLabel}[_{occurrenceIndex}].{ext}"]:
    the case number zero-padded to four digits, the occurrence suffix
    left out for the first occurrence and present from the second one
    onward. *)
Definition convention_filename (tag : string) (case_number : N)
    (label : string) (occurrence : N) (ext : string) : string :=
  tag ++ "_ID" ++ format_04d case_number ++ "_" ++ label
    ++ (if (2 <=? occurrence)%N then "_" ++ pretty occurrence else "")
    ++ "." ++ ext.

(** All the characters of [s] are decimal digits. *)
Definition all_digits (s : string) : bool :=
  forallb is_digit (list_ascii_of_string s).

Definition four_digits_of (n : N) : bool :=
  (String.length (format_04d n) =? 4)%nat
  && all_digits (format_04d n)
  && match py_int_of_str (format_04d n) with
     | inr m => (m =? n)%N
     | inl _ => false
     end.

(** ** Occurrences *)

(** The canonical phase of a row of the Cataract-1k timeline, and the
    number of rows of [df] that carry the phase [phase]. *)
Definition phase_of (row : Cataract1k.Row) : string :=
  Cataract1k.map_phase_name (Cataract1k.comment row).

Definition occurrences (phase : string) (df : list Cataract1k.Row) : N :=
  N.of_nat (length (filter (fun row => phase_of row = phase) df)).

(** A video of 40 frames at 25 frames per second in which every frame
    decodes, and one in which frame 15 alone does not. *)
Definition video_40 : VideoCapture :=
  {| isOpened := true; CAP_PROP_FPS := 25;
     CAP_PROP_FRAME_WIDTH := 640; CAP_PROP_FRAME_HEIGHT := 480;
     CAP_PROP_FRAME_COUNT := 40; decodes := fun _ => true |}.

Definition video_40_bad_15 : VideoCapture :=
  {| isOpened := true; CAP_PROP_FPS := 25;
     CAP_PROP_FRAME_WIDTH := 640; CAP_PROP_FRAME_HEIGHT := 480;
     CAP_PROP_FRAME_COUNT := 40; decodes := fun pos => negb (pos =? 15)%Z |}.

Definition rows1k_A_B_A_A : list Cataract1k.Row :=
  [ row1k "A" 0 9; row1k "B" 10 19; row1k "A" 20 29; row1k "A" 30 39 ].

Definition rows1k_10_20 : list Cataract1k.Row :=
  [ row1k "A" 10 20; row1k "B" 21 30 ].

Definition rows101 : list Cataract101.Row :=
  [ {| Cataract101.FrameNo := 0; Cataract101.Phase := 0 |};
    {| Cataract101.FrameNo := 5; Cataract101.Phase := 1 |};
    {| Cataract101.FrameNo := 9; Cataract101.Phase := 3 |} ].

(** ** Run-length segments *)

(** The label of frame [f] in a per-frame table. *)
Definition label_at (df : list Cataract21.Row) (f : Z) : option string :=
  Cataract21.Phase_Name <$> df !! Z.to_nat f.

(** The segments of a run of the frame-stream splitter: for each video,
    in the order of their creation, its phase and the frames written to
    it. *)
Definition segments (videos : list (string * VideoWriter))
  : list (string * list Z) :=
  map (fun v => (v.1, written v.2)) videos.

(** The interval of a segment: phase, first frame, last frame. *)
Definition interval_of (seg : string * list Z) : option (string * Z * Z) :=
  match head seg.2, last seg.2 with
  | Some s, Some e => Some (seg.1, s, e)
  | _, _ => None
  end.

Definition intervals (videos : list (string * VideoWriter))
  : list (string * Z * Z) :=
  omap interval_of (segments videos).

(** Frame [f] is where the label changes: the first frame, or one whose
    label is not the label of the frame before it. *)
Definition label_changes (df : list Cataract21.Row) (f : Z) : Prop :=
  f = 0 \/ label_at df f <> label_at df (f - 1).

(** [scan label m closed p fs]: the left-to-right scan of the frames
    [0 .. m - 1], [m >= 1], has closed the segments [closed] and holds
    the segment of phase [p] with the frames [fs] open. *)
Inductive scan (label : Z -> option string)
  : nat -> list (string * list Z) -> string -> list Z -> Prop :=
  | scan_first (p : string) :
      label 0 = Some p -> scan label 1 [] p [0]
  | scan_same (m : nat) (closed : list (string * list Z)) (p : string)
      (fs : list Z) :
      scan label m closed p fs ->
      label (Z.of_nat m) = Some p ->
      scan label (S m) closed p (fs ++ [Z.of_nat m])
  | scan_new (m : nat) (closed : list (string * list Z)) (p q : string)
      (fs : list Z) :
      scan label m closed p fs ->
      label (Z.of_nat m) = Some q ->
      q <> p ->
      scan label (S m) (closed ++ [(p, fs)]) q [Z.of_nat m].

(** The state of the frame loop of the Cataract-21 splitter after [m]
    frames. *)
Definition loop_invariant (label : Z -> option string) (m : nat)
    (st : Cataract21.state) : Prop :=
  match m with
  | O => st = Cataract21.initial_state
  | S _ =>
      exists (closed : list (string * VideoWriter)) (p : string)
             (w : VideoWriter),
        Cataract21.videos st = (closed ++ [(p, w)])%list
        /\ scan label m (segments closed) p (written w)
        /\ Cataract21.previous_phase st = Some p
        /\ Cataract21.writers st !! p = Some (length closed)
        /\ length (Cataract21.dirs st) = length (Cataract21.videos st)
  end.

Definition labels_I_I_A_A_A_B : list Cataract21.Row :=
  map (fun named =>
         {| Cataract21.Frame_Number := named.1;
            Cataract21.Phase_Name := named.2 |})
    [ (0, "I"); (1, "I"); (2, "A"); (3, "A"); (4, "A"); (5, "B") ].

(** ** Rows without a gap *)


(** A run of the batch driver: a directory of annotation files, the
    table of case 2 empty, the video of case 3 missing. *)
Definition batch_world : Cataract1kBatch.world :=
  {| Cataract1kBatch.read_csv := fun path =>
       if String.eqb path "ann/case_2_annotations_phases.csv" then []
       else rows1k_10_20;
     Cataract1kBatch.video_at := fun path =>
       if String.eqb path "videos/case_3.mp4" then None else Some video_40 |}.

Definition batch_walk : list (string * list string) :=
  [ ("ann",
     [ "readme.txt";
       "case_1_annotations_phases.csv";
       "case_3_annotations_phases.csv";
       "case_2_annotations_phases.csv";
       "case_4_annotations_phases.csv" ]) ].

(** What [process_all_videos] reports for an annotation file is about
    that file: the video path is built from the number in the file's
    name, and the videos written are named after that number. *)
Definition report_of_walk (walk : list (string * list string))
    (video_dir output_base_dir : string) (r : Cataract1kBatch.report) : Prop :=
  exists (root : string) (files : list string) (file case_number : string),
    (root, files) ∈ walk
    /\ file ∈ files
    /\ get_case_number_from_filename file = inr case_number
    /\ match r with
       | Cataract1kBatch.Missing csv_file =>
           csv_file = os_path_join root file
       | Cataract1kBatch.Ran video_file csv_file result =>
           csv_file = os_path_join root file
           /\ video_file
              = os_path_join video_dir ("case_" ++ case_number ++ ".mp4")
           /\ match result with
              | Cataract1k.Raised _ => False
              | Cataract1k.NotOpened => True
              | Cataract1k.Completed dirs videos =>
                  exists n : N,
                    py_int_of_str case_number = inr n
                    /\ Forall
                         (fun w =>
                            exists (phase : string) (count : N),
                              output_path w
                              = os_path_join
                                  (os_path_join output_base_dir phase)
                                  (Cataract1k.output_filename n phase count))
                         videos
              end
       end.

(** ** Names of the frame-stream splitter *)

(** How often the phase [phase] occurs in a list of phases. *)
Definition count_phase (phase : string) (phases : list string) : N :=
  N.of_nat (length (filter (fun p => p = phase) phases)).

(** The state of the frame loop names its videos by occurrence: the
    counters hold how many videos each phase has, and the video number
    [k], of phase [p], lies in the directory of [p] under the name that
    carries the count of [p] among the videos up to it. *)
Definition named_by_occurrence (case_number output_base_dir : string)
    (st : Cataract21.state) : Prop :=
  (forall p : string,
      counter_get (Cataract21.phase_counters st) p
      = count_phase p (fst <$> Cataract21.videos st))
  /\ length (Cataract21.dirs st) = length (Cataract21.videos st)
  /\ forall (k : nat) (v : string * VideoWriter),
      Cataract21.videos st !! k = Some v ->
      Cataract21.dirs st !! k = Some (os_path_join output_base_dir v.1)
      /\ output_path v.2
         = os_path_join (os_path_join output_base_dir v.1)
             (Cataract21.output_filename case_number v.1
                (count_phase v.1 (take (S k) (fst <$> Cataract21.videos st)))).

(** The timeline that the Cataract-101 [process_video] reports. *)
Definition timeline101 (saved : list Cataract101.Saved) : timeline :=
  map (fun sv => (Cataract101.saved_start sv, Cataract101.saved_end sv)) saved.

Definition main_table : list Cataract101Csv.Row :=
  [ {| Cataract101Csv.VideoID := 269; Cataract101Csv.FrameNo := 120;
       Cataract101Csv.Phase := 2 |};
    {| Cataract101Csv.VideoID := 270; Cataract101Csv.FrameNo := 40;
       Cataract101Csv.Phase := 1 |};
    {| Cataract101Csv.VideoID := 269; Cataract101Csv.FrameNo := 30;
       Cataract101Csv.Phase := 1 |} ].


Definition phase_rows : list FrameExtractor.Row :=
  [ {| FrameExtractor.comment := "Incision";
       FrameExtractor.sec := 2; FrameExtractor.endsec := 2 |};
    {| FrameExtractor.comment := "Phaco";
       FrameExtractor.sec := 4; FrameExtractor.endsec := 10 |} ].



(** * Properties *)

(** ** Phase vocabulary *)

Lemma PHASE_MAPPING_values (phase_name canonical : string) :
  Cataract1k.PHASE_MAPPING !! phase_name = Some canonical ->
  Cataract1k.PHASE_MAPPING !! canonical = None
  \/ Cataract1k.PHASE_MAPPING !! canonical = Some canonical.
Proof.
  intros Hget.
  apply elem_of_list_to_map_2 in Hget.
  repeat
    (apply elem_of_cons in Hget as [Hget | Hget];
     [ injection Hget as -> ->; vm_compute; auto | ]).
  apply elem_of_nil in Hget. contradiction.
Qed.

(** C10. Normalising a phase name of the Cataract-1k vocabulary twice
    gives what normalising it once gives: a name produced by
    [PHASE_MAPPING] is either mapped to itself or is not one of its keys,
    and a name that is not a key is returned as it is. *)
Theorem map_phase_name_idempotent (phase_name : string) :
  Cataract1k.map_phase_name (Cataract1k.map_phase_name phase_name)
  = Cataract1k.map_phase_name phase_name.
Proof.
  unfold Cataract1k.map_phase_name at 2 3.
  destruct (Cataract1k.PHASE_MAPPING !! phase_name) as [canonical|] eqn:Hget;
    simpl.
  - unfold Cataract1k.map_phase_name.
    destruct (PHASE_MAPPING_values _ _ Hget) as [Hc | Hc]; now rewrite Hc.
  - unfold Cataract1k.map_phase_name. now rewrite Hget.
Qed.

(** ** Idle synthesis *)

Lemma chain_gap_free (s e : Z) (tl : timeline) : chain s tl e -> gap_free tl.
Proof.
  induction 1 as [s e | s e e' tl Hch IH]; intros i a b Ha Hb.
  - destruct i; discriminate.
  - destruct i as [| i]; simpl in Ha, Hb.
    + injection Ha as <-. simpl.
      inversion Hch; subst; simpl in Hb; injection Hb as <-; reflexivity.
    + eapply IH; eassumption.
Qed.

Lemma chain_first_start (s e : Z) (tl : timeline) :
  chain s tl e -> first_start tl = Some s.
Proof. destruct 1; reflexivity. Qed.

Lemma chain_last_end (s e : Z) (tl : timeline) :
  chain s tl e -> last_end tl = Some e.
Proof.
  unfold last_end.
  induction 1 as [s e | s e e' tl Hch IH]; [reflexivity |].
  destruct tl as [| b tl]; [inversion Hch | exact IH].
Qed.

(** In a chain of well-formed ranges the starts increase strictly. *)
Lemma chain_start_sorted (s e : Z) (tl : timeline) :
  chain s tl e -> well_formed tl ->
  Sorted (fun a b : Z * Z => a.1 < b.1) tl.
Proof.
  induction 1 as [s e | s e e' tl Hch IH]; intros Hwf.
  - repeat constructor.
  - apply Forall_cons in Hwf as [Hse Hwf]. simpl in Hse.
    constructor; [auto |].
    inversion Hch; subst; constructor; simpl; lia.
Qed.



(** Sorting rows that are already in the order of their starts changes
    nothing. *)
Lemma sort_values_sorted (df : list PhaseCsv.Row) :
  Sorted (fun a b : Z * Z => a.1 <= b.1) (timeline_csv df) ->
  PhaseCsv.sort_values df = df.
Proof.
  induction df as [| row df IH]; intros Hs; [reflexivity |].
  simpl in Hs. inversion Hs as [| ? ? Hs' Hhd]; subst.
  unfold PhaseCsv.sort_values in *. simpl. rewrite (IH Hs').
  destruct df as [| next df]; [reflexivity |].
  simpl in Hhd. inversion Hhd as [| ? ? Hle]; subst. simpl in Hle.
  simpl. destruct (Z.leb_spec (PhaseCsv.Start_Frame row)
                     (PhaseCsv.Start_Frame next)); [reflexivity | lia].
Qed.

Lemma Sorted_lt_le (tl : timeline) :
  Sorted (fun a b : Z * Z => a.1 < b.1) tl ->
  Sorted (fun a b : Z * Z => a.1 <= b.1) tl.
Proof.
  induction 1 as [| a tl Hs IH Hhd]; constructor; [assumption |].
  destruct Hhd; constructor; lia.
Qed.

Lemma separated_sorted (tl : timeline) :
  separated tl -> well_formed tl ->
  Sorted (fun a b : Z * Z => a.1 <= b.1) tl.
Proof.
  induction tl as [| a tl IH]; intros Hsep Hwf; [constructor |].
  apply Forall_cons in Hwf as [Ha Hwf].
  destruct tl as [| b tl]; [repeat constructor |].
  destruct Hsep as [Hlt Hsep].
  constructor; [now apply IH |]. constructor. lia.
Qed.

Lemma phases_loop_chain (video_name : string) (row : PhaseCsv.Row)
    (df : list PhaseCsv.Row) (last_row : PhaseCsv.Row) :
  separated (timeline_csv (row :: df)) ->
  last (row :: df) = Some last_row ->
  chain (PhaseCsv.Start_Frame row)
    (timeline_csv (PhaseCsv.phases_loop video_name (row :: df)))
    (PhaseCsv.End_Frame last_row).
Proof.
  revert row. induction df as [| next df IH]; intros row Hsep Hlast.
  - injection Hlast as <-. apply chain_one.
  - destruct Hsep as [Hlt Hsep]. simpl in Hlt.
    change (last (next :: df) = Some last_row) in Hlast.
    specialize (IH next Hsep Hlast).
    cbn [PhaseCsv.phases_loop] in *.
    destruct (Z.ltb_spec 1 (PhaseCsv.Start_Frame next - PhaseCsv.End_Frame row))
      as [Hgap | Hgap].
    + simpl. apply chain_cons. apply chain_cons.
      replace (PhaseCsv.Start_Frame next - 1 + 1)
        with (PhaseCsv.Start_Frame next) by lia.
      exact IH.
    + simpl. apply chain_cons.
      replace (PhaseCsv.End_Frame row + 1)
        with (PhaseCsv.Start_Frame next) by lia.
      exact IH.
Qed.

Lemma phases_loop_well_formed (video_name : string) (df : list PhaseCsv.Row) :
  well_formed (timeline_csv df) ->
  well_formed (timeline_csv (PhaseCsv.phases_loop video_name df)).
Proof.
  unfold well_formed.
  induction df as [| row df IH]; intros Hwf; [constructor |].
  simpl in Hwf. apply Forall_cons in Hwf as [Hrow Hwf].
  cbn [PhaseCsv.phases_loop].
  destruct df as [| next df].
  - simpl. repeat constructor. exact Hrow.
  - destruct (Z.ltb_spec 1 (PhaseCsv.Start_Frame next - PhaseCsv.End_Frame row))
      as [Hgap | Hgap].
    + simpl. constructor; [exact Hrow |].
      constructor; [simpl; lia |]. now apply IH.
    + simpl. constructor; [exact Hrow |]. now apply IH.
Qed.





(** ** Frame sampling *)

(** On a non-negative argument [int()] is the floor. *)
Lemma py_int_floor (x : Q) : (0 <= x)%Q -> py_int x = Qfloor x.
Proof.
  destruct x as [n d]. unfold Qle, py_int, Qfloor. simpl.
  intros Hn. apply Z.quot_div_nonneg; lia.
Qed.

Lemma inject_Z_nonneg (z : Z) : 0 <= z -> (0 <= inject_Z z)%Q.
Proof. intros Hz. change 0%Q with (inject_Z 0). now rewrite <- Zle_Qle. Qed.

Section Sampling.

Variables (start_frame end_frame : Z) (rate : Q).
Hypothesis start_nonneg : 0 <= start_frame.
Hypothesis rate_pos : (0 < rate)%Q.

Local Abbreviation position := (position start_frame rate).

Lemma position_nonneg (i : Z) : 0 <= i -> (0 <= position i)%Q.
Proof.
  intros Hi. unfold position.
  assert (0 <= inject_Z start_frame)%Q by now apply inject_Z_nonneg.
  assert (0 <= inject_Z i)%Q by now apply inject_Z_nonneg.
  assert (0 <= inject_Z i * rate)%Q by (apply Qmult_le_0_compat; lra).
  lra.
Qed.


Lemma frame_num_ge_start (i : Z) :
  0 <= i -> start_frame <= py_int (position i).
Proof.
  intros Hi. rewrite py_int_floor by now apply position_nonneg.
  rewrite <- (Qfloor_Z start_frame) at 1.
  apply Qfloor_resp_le. unfold position.
  assert (0 <= inject_Z i)%Q by now apply inject_Z_nonneg.
  assert (0 <= inject_Z i * rate)%Q by (apply Qmult_le_0_compat; lra).
  lra.
Qed.



Lemma sample_loop_length (n : nat) (i : Z) :
  (length (FrameExtractor.sample_loop start_frame end_frame rate n i)
   <= n)%nat.
Proof.
  revert i. induction n as [| n IH]; intros i; simpl; [lia |].
  destruct (end_frame <? _)%Z; simpl; [lia |].
  specialize (IH (i + 1)). lia.
Qed.

Lemma sample_loop_range (n : nat) (i : Z) :
  0 <= i ->
  Forall (fun frame_num => start_frame <= frame_num <= end_frame)
    (FrameExtractor.sample_loop start_frame end_frame rate n i).
Proof.
  revert i. induction n as [| n IH]; intros i Hi; simpl; [constructor |].
  fold (position i).
  destruct (Z.ltb_spec end_frame (py_int (position i))); [constructor |].
  constructor; [| apply IH; lia].
  split; [now apply frame_num_ge_start | assumption].
Qed.


End Sampling.

Lemma sampling_rate_pos (total_frames max_frames : Z)
    (min_sampling_rate fps : Q) :
  0 < total_frames -> 0 < max_frames ->
  exists rate : Q,
    FrameExtractor.sampling_rate total_frames max_frames min_sampling_rate fps
    = inr rate
    /\ (0 < rate)%Q
    /\ (min_sampling_rate * fps <= rate)%Q
    /\ (inject_Z total_frames / inject_Z max_frames <= rate)%Q.
Proof.
  intros Htotal Hmax. unfold FrameExtractor.sampling_rate.
  destruct (Z.eqb_spec max_frames 0) as [-> | _]; [lia |].
  assert (0 < inject_Z total_frames / inject_Z max_frames)%Q as Hpos.
  { apply Qlt_shift_div_l.
    - change 0%Q with (inject_Z 0). now rewrite <- Zlt_Qlt.
    - rewrite Qmult_0_l. change 0%Q with (inject_Z 0). now rewrite <- Zlt_Qlt. }
  destruct (Qlt_le_dec _ _) as [Hlt | Hle]; eexists;
    (split; [reflexivity |]); repeat split; lra.
Qed.




(** The images saved for a row are taken at the sampled frame numbers that
    decode, in the order of the sampling. *)
Lemma save_phase_frames (cap : VideoCapture) (case_id output_dir : string)
    (max_frames : Z) (min_sampling_rate : Q) (row : FrameExtractor.Row)
    (indices : list Z) :
  FrameExtractor.frame_indices
    (py_int (FrameExtractor.sec row * CAP_PROP_FPS cap)%Q)
    (py_int (FrameExtractor.endsec row * CAP_PROP_FPS cap)%Q)
    max_frames min_sampling_rate (CAP_PROP_FPS cap) = inr (Some indices) ->
  exists images : list (string * Z),
    FrameExtractor.save_phase cap case_id output_dir max_frames
      min_sampling_rate row = inr images
    /\ map snd images
       = filter (fun frame_num => decodes cap frame_num = true) indices.
Proof.
  intros Hindices. unfold FrameExtractor.save_phase. rewrite Hindices.
  eexists. split; [reflexivity |].
  rewrite map_map. simpl. apply map_id.
Qed.

(** ** File names *)

(** Below 10000 [:04d] gives exactly four digits that read back as the
    number. *)
Lemma format_04d_four_digits (n : N) :
  (n < 10000)%N -> four_digits_of n = true.
Proof.
  intros Hn.
  assert (forallb four_digits_of
            (map N.of_nat (seq 0 (N.to_nat 10000))) = true) as Hall
    by (vm_compute; reflexivity).
  rewrite forallb_forall in Hall. apply Hall.
  apply in_map_iff. exists (N.to_nat n). split; [apply N2Nat.id |].
  apply in_seq. lia.
Qed.

(** From 10000 on [:04d] adds nothing to the decimal digits. *)
Lemma format_04d_wide (n : N) :
  (4 <= String.length (pretty n))%nat -> format_04d n = pretty n.
Proof.
  intros Hlen. unfold format_04d.
  replace (4 - String.length (pretty n))%nat with 0%nat by lia.
  reflexivity.
Qed.

Lemma occurrence_suffix_convention (count : N) :
  occurrence_suffix count
  = if (2 <=? count)%N then "_" ++ pretty count else "".
Proof.
  unfold occurrence_suffix.
  destruct (N.ltb_spec 1 count), (N.leb_spec 2 count); (reflexivity || lia).
Qed.

(** The Cataract-1k and Cataract-101 extractors name their files by the
    convention. *)
Lemma cataract1k_filename_convention (case_number : N) (phase : string)
    (count : N) :
  Cataract1k.output_filename case_number phase count
  = convention_filename "Cataract1k" case_number phase count "mp4".
Proof.
  unfold Cataract1k.output_filename, convention_filename.
  rewrite occurrence_suffix_convention. reflexivity.
Qed.

Lemma cataract101_filename_convention (case_number : N) (phase : string)
    (count : N) :
  Cataract101.output_filename case_number phase count
  = convention_filename "Cataract101" case_number phase count "mp4".
Proof.
  unfold Cataract101.output_filename, convention_filename.
  rewrite occurrence_suffix_convention. reflexivity.
Qed.

(** C3 at the failing input.  For the video [case_7.mp4] and a first
    occurrence of the phase [Incision], the Cataract-21 extractor writes
    ["00"] and the captured digits, [Cataract21_ID007_Incision.mp4], where
    the convention has the number padded to four digits,
    [Cataract21_ID0007_Incision.mp4]. *)
Theorem cataract21_case_number_not_padded :
  get_case_number_from_filename "case_7.mp4" = inr "7"
  /\ py_int_of_str "7" = inr 7%N
  /\ Cataract21.create_writer "Incision" ∅ "7" "out"
     = ({[ "Incision" := 1%N ]}, "out/Incision",
        "out/Incision/Cataract21_ID007_Incision.mp4")
  /\ Cataract21.output_filename "7" "Incision" 1
     = "Cataract21_ID007_Incision.mp4"
  /\ convention_filename "Cataract21" 7 "Incision" 1 "mp4"
     = "Cataract21_ID0007_Incision.mp4".
Proof. repeat split; vm_compute; reflexivity. Qed.

(** ** Occurrence counters and destination paths *)

Lemma counter_get_empty (phase : string) : counter_get ∅ phase = 0%N.
Proof. unfold counter_get. now rewrite lookup_empty. Qed.

Lemma counter_get_incr (phase_counters : gmap string N) (p q : string) :
  counter_get (counter_incr phase_counters p) q
  = if decide (p = q) then (counter_get phase_counters q + 1)%N
    else counter_get phase_counters q.
Proof.
  unfold counter_incr, counter_get at 1.
  destruct (decide (p = q)) as [-> | Hne].
  - now rewrite lookup_insert_eq.
  - now rewrite lookup_insert_ne.
Qed.

Lemma occurrences_cons (phase : string) (row : Cataract1k.Row)
    (df : list Cataract1k.Row) :
  occurrences phase (row :: df)
  = ((if decide (phase_of row = phase) then 1 else 0)
     + occurrences phase df)%N.
Proof.
  unfold occurrences. rewrite filter_cons.
  destruct (decide (phase_of row = phase)); simpl; lia.
Qed.

(** What the row loop of the Cataract-1k splitter produces, row by row. *)
Lemma split_rows_spec (cap : VideoCapture) (case_number output_base_dir : string)
    (n : N) :
  py_int_of_str case_number = inr n ->
  forall (df : list Cataract1k.Row) (phase_counters : gmap string N),
  exists (dirs : list string) (videos : list VideoWriter),
    Cataract1k.split_rows cap case_number output_base_dir phase_counters df
    = inr (dirs, videos)
    /\ length videos = length df
    /\ length dirs = length df
    /\ forall (k : nat) (row : Cataract1k.Row),
        df !! k = Some row ->
        exists w : VideoWriter,
          videos !! k = Some w
          /\ dirs !! k = Some (os_path_join output_base_dir (phase_of row))
          /\ output_path w
             = os_path_join (os_path_join output_base_dir (phase_of row))
                 (Cataract1k.output_filename n (phase_of row)
                    (counter_get phase_counters (phase_of row)
                     + occurrences (phase_of row) (take (S k) df)))
          /\ written w
             = copy_range cap (Cataract1k.frame row) (Cataract1k.endFrame row).
Proof.
  intros Hint. induction df as [| row0 df IH]; intros phase_counters.
  - exists [], []. repeat split. intros k row Hk. discriminate.
  - destruct (IH (counter_incr phase_counters (phase_of row0)))
      as (dirs & videos & Hrun & Hlen & Hlend & Hrows).
    cbn [Cataract1k.split_rows]. fold (phase_of row0).
    unfold Cataract1k.create_writer. rewrite Hint, Hrun.
    eexists _, _. split; [reflexivity |]. split; [simpl; lia |].
    split; [simpl; lia |].
    intros [| k] row Hk.
    + injection Hk as ->. eexists. split; [reflexivity |].
      split; [reflexivity |]. split; [| reflexivity].
      cbn [output_path]. rewrite counter_get_incr.
      destruct (decide (phase_of row = phase_of row)); [| congruence].
      cbn [take]. rewrite occurrences_cons.
      destruct (decide (phase_of row = phase_of row)); [| congruence].
      reflexivity.
    + destruct (Hrows k row Hk) as (w & Hw & Hdir & Hpath & Hwritten).
      exists w. split; [exact Hw |]. split; [exact Hdir |].
      split; [| exact Hwritten].
      rewrite Hpath, counter_get_incr. do 2 f_equal.
      change (take (S (S k)) (row0 :: df)) with (row0 :: take (S k) df).
      rewrite occurrences_cons.
      destruct (decide (phase_of row0 = phase_of row)); lia.
Qed.

(** The case number captured from a file name is a string of digits, so
    [int()] accepts it. *)
Lemma int_of_take_digits (s : string) (acc : N) :
  exists n : N, int_of_digits_go acc (take_digits s) = Some n.
Proof.
  revert acc. induction s as [| c s IH]; intros acc; simpl; [eauto |].
  destruct (is_digit c) eqn:Hc; simpl; [| eauto].
  rewrite Hc. apply IH.
Qed.

Lemma case_number_is_int (filename case_number : string) :
  get_case_number_from_filename filename = inr case_number ->
  exists n : N, py_int_of_str case_number = inr n.
Proof.
  unfold get_case_number_from_filename.
  destruct (re_search_case filename) as [d |] eqn:Hsearch; [| discriminate].
  intros [= <-]. revert Hsearch.
  assert (forall s, match_case_here s = Some d ->
                    exists n : N, py_int_of_str d = inr n) as Hhere.
  { intros s. unfold match_case_here.
    destruct (prefix_ignorecase "case_" s) as [rest |]; [| discriminate].
    destruct (int_of_take_digits rest 0) as [n Hn].
    destruct (take_digits rest) as [| c r] eqn:Hd; [discriminate |].
    intros [= <-]. exists n. unfold py_int_of_str. now rewrite Hn. }
  induction filename as [| c filename IH]; intros Hsearch.
  - discriminate Hsearch.
  - cbn [re_search_case] in Hsearch.
    destruct (match_case_here (String c filename)) eqn:Hm.
    + injection Hsearch as ->. eauto.
    + auto.
Qed.

(** A run of the Cataract-1k [process_video] on a video that opens:
    every row of the timeline gets its directory and its video. *)
Lemma process_video_spec (video_file : string) (df rows : list Cataract1k.Row)
    (cap : VideoCapture) (output_base_dir case_number : string) :
  get_case_number_from_filename (os_path_basename video_file)
  = inr case_number ->
  Cataract1k.insert_idle_phases df = inr rows ->
  isOpened cap = true ->
  exists (n : N) (dirs : list string) (videos : list VideoWriter),
    py_int_of_str case_number = inr n
    /\ Cataract1k.process_video video_file df cap output_base_dir
       = Cataract1k.Completed dirs videos
    /\ length videos = length rows
    /\ length dirs = length rows
    /\ forall (k : nat) (row : Cataract1k.Row),
        rows !! k = Some row ->
        exists w : VideoWriter,
          videos !! k = Some w
          /\ dirs !! k = Some (os_path_join output_base_dir (phase_of row))
          /\ output_path w
             = os_path_join (os_path_join output_base_dir (phase_of row))
                 (Cataract1k.output_filename n (phase_of row)
                    (occurrences (phase_of row) (take (S k) rows)))
          /\ written w
             = copy_range cap (Cataract1k.frame row) (Cataract1k.endFrame row).
Proof.
  intros Hcase Hrows Hopen.
  destruct (case_number_is_int _ _ Hcase) as [n Hn].
  destruct (split_rows_spec cap case_number output_base_dir n Hn rows ∅)
    as (dirs & videos & Hrun & Hlen & Hlend & Hspec).
  exists n, dirs, videos. split; [exact Hn |]. split.
  { unfold Cataract1k.process_video. now rewrite Hcase, Hrows, Hopen, Hrun. }
  split; [exact Hlen |]. split; [exact Hlend |].
  intros k row Hk. destruct (Hspec k row Hk) as (w & Hw & Hdir & Hpath & Hwr).
  exists w. rewrite counter_get_empty, N.add_0_l in Hpath. auto.
Qed.

Lemma occurrences_take_le (phase : string) (df : list Cataract1k.Row)
    (a b : nat) :
  (a <= b)%nat ->
  (occurrences phase (take a df) <= occurrences phase (take b df))%N.
Proof.
  intros Hab. unfold occurrences.
  rewrite <- (take_drop a (take b df)), take_take.
  replace (a `min` b)%nat with a by lia.
  rewrite filter_app, length_app. lia.
Qed.

Lemma occurrences_take_S (df : list Cataract1k.Row) (k : nat)
    (row : Cataract1k.Row) :
  df !! k = Some row ->
  occurrences (phase_of row) (take (S k) df)
  = (occurrences (phase_of row) (take k df) + 1)%N.
Proof.
  intros Hk. unfold occurrences.
  rewrite (take_S_r _ _ _ Hk), filter_app, length_app, filter_cons.
  destruct (decide (phase_of row = phase_of row)); [| congruence].
  simpl. lia.
Qed.

(** C6. The counters of a case start at 0; a run of [process_video] names
    the video of each interval with the number of intervals so far,
    itself included, that carry its phase: 1 for the first one, and for
    two intervals of one phase a larger number for the later one.  For
    intervals labelled A, B, A, A the numbers are 1, 1, 2, 3, the two
    files numbered 1 carrying no suffix. *)
Theorem occurrence_numbering :
  (forall phase : string, counter_get ∅ phase = 0%N)
  /\ (forall (video_file : string) (df rows : list Cataract1k.Row)
             (cap : VideoCapture) (output_base_dir case_number : string),
         get_case_number_from_filename (os_path_basename video_file)
         = inr case_number ->
         Cataract1k.insert_idle_phases df = inr rows ->
         isOpened cap = true ->
         exists (n : N) (dirs : list string) (videos : list VideoWriter),
           py_int_of_str case_number = inr n
           /\ Cataract1k.process_video video_file df cap output_base_dir
              = Cataract1k.Completed dirs videos
           /\ (forall (k : nat) (row : Cataract1k.Row),
                  rows !! k = Some row ->
                  exists w : VideoWriter,
                    videos !! k = Some w
                    /\ output_path w
                       = os_path_join
                           (os_path_join output_base_dir (phase_of row))
                           (Cataract1k.output_filename n (phase_of row)
                              (occurrences (phase_of row) (take (S k) rows))))
           /\ (forall (j k : nat) (row_j row_k : Cataract1k.Row),
                  (j < k)%nat ->
                  rows !! j = Some row_j -> rows !! k = Some row_k ->
                  phase_of row_j = phase_of row_k ->
                  (1 <= occurrences (phase_of row_j) (take (S j) rows)
                   < occurrences (phase_of row_k) (take (S k) rows))%N))
  /\ (exists (dirs : list string) (videos : list VideoWriter),
         Cataract1k.process_video "case_1.mp4" rows1k_A_B_A_A video_40 "out"
         = Cataract1k.Completed dirs videos
         /\ map (fun k => occurrences
                            (default "" (phase_of <$> rows1k_A_B_A_A !! k))
                            (take (S k) rows1k_A_B_A_A))
              [0; 1; 2; 3]%nat
            = [1; 1; 2; 3]%N
         /\ map output_path videos
            = [ "out/A/Cataract1k_ID0001_A.mp4";
                "out/B/Cataract1k_ID0001_B.mp4";
                "out/A/Cataract1k_ID0001_A_2.mp4";
                "out/A/Cataract1k_ID0001_A_3.mp4" ]).
Proof.
  split; [exact counter_get_empty |]. split.
  - intros video_file df rows cap output_base_dir case_number Hcase Hrows Hopen.
    destruct (process_video_spec video_file df rows cap output_base_dir
                case_number Hcase Hrows Hopen)
      as (n & dirs & videos & Hn & Hrun & _ & _ & Hspec).
    exists n, dirs, videos. split; [exact Hn |]. split; [exact Hrun |]. split.
    + intros k row Hk.
      destruct (Hspec k row Hk) as (w & Hw & _ & Hpath & _). eauto.
    + intros j k row_j row_k Hjk Hj Hk Hphase.
      rewrite (occurrences_take_S rows j row_j Hj).
      rewrite (occurrences_take_S rows k row_k Hk).
      rewrite Hphase.
      pose proof (occurrences_take_le (phase_of row_k) rows (S j) k
                    ltac:(lia)) as Hle.
      rewrite <- Hphase in Hle at 1.
      rewrite (occurrences_take_S rows j row_j Hj), Hphase in Hle.
      lia.
  - eexists _, _. split; [vm_compute; reflexivity |].
    split; vm_compute; reflexivity.
Qed.

Lemma occurrence_numbering_witness :
  exists (n : N) (dirs : list string) (videos : list VideoWriter),
    py_int_of_str "1" = inr n
    /\ Cataract1k.process_video "case_1.mp4" rows1k_A_B_A_A video_40 "out"
       = Cataract1k.Completed dirs videos
    /\ (forall (k : nat) (row : Cataract1k.Row),
           rows1k_A_B_A_A !! k = Some row ->
           exists w : VideoWriter,
             videos !! k = Some w
             /\ output_path w
                = os_path_join (os_path_join "out" (phase_of row))
                    (Cataract1k.output_filename n (phase_of row)
                       (occurrences (phase_of row)
                          (take (S k) rows1k_A_B_A_A))))
    /\ (forall (j k : nat) (row_j row_k : Cataract1k.Row),
           (j < k)%nat ->
           rows1k_A_B_A_A !! j = Some row_j ->
           rows1k_A_B_A_A !! k = Some row_k ->
           phase_of row_j = phase_of row_k ->
           (1 <= occurrences (phase_of row_j) (take (S j) rows1k_A_B_A_A)
            < occurrences (phase_of row_k) (take (S k) rows1k_A_B_A_A))%N).
Proof.
  destruct occurrence_numbering as (_ & Hrun & _).
  apply (Hrun "case_1.mp4" rows1k_A_B_A_A rows1k_A_B_A_A video_40 "out" "1");
    reflexivity.
Defined.

(** C7. The destinations of a case depend on nothing but the video's file
    name, the annotation rows and the output directory: two runs on the
    same three, whatever the two decoders deliver (frame rate, frame
    size, which frames decode), end the same way, and when they complete
    they have made the same directories and opened the same paths in the
    same order.  The code reads no clock and draws no random number. *)
Theorem destination_paths_deterministic (video_file : string)
    (df : list Cataract1k.Row) (output_base_dir : string)
    (cap1 cap2 : VideoCapture) :
  isOpened cap1 = true ->
  isOpened cap2 = true ->
  match Cataract1k.process_video video_file df cap1 output_base_dir,
        Cataract1k.process_video video_file df cap2 output_base_dir with
  | Cataract1k.Completed dirs1 videos1, Cataract1k.Completed dirs2 videos2 =>
      dirs1 = dirs2 /\ map output_path videos1 = map output_path videos2
  | Cataract1k.Raised e1, Cataract1k.Raised e2 => e1 = e2
  | _, _ => False
  end.
Proof.
  intros Hopen1 Hopen2.
  destruct (get_case_number_from_filename (os_path_basename video_file))
    as [e | case_number] eqn:Hcase.
  { unfold Cataract1k.process_video. now rewrite Hcase. }
  destruct (Cataract1k.insert_idle_phases df) as [e | rows] eqn:Hrows.
  { unfold Cataract1k.process_video. now rewrite Hcase, Hrows. }
  destruct (process_video_spec video_file df rows cap1 output_base_dir
              case_number Hcase Hrows Hopen1)
    as (n1 & dirs1 & videos1 & Hn1 & -> & Hlen1 & Hlend1 & Hspec1).
  destruct (process_video_spec video_file df rows cap2 output_base_dir
              case_number Hcase Hrows Hopen2)
    as (n2 & dirs2 & videos2 & Hn2 & -> & Hlen2 & Hlend2 & Hspec2).
  assert (n2 = n1) as -> by congruence.
  split; apply list_eq; intros k.
  - destruct (rows !! k) as [row |] eqn:Hk.
    + destruct (Hspec1 k row Hk) as (w1 & _ & -> & _).
      destruct (Hspec2 k row Hk) as (w2 & _ & -> & _). reflexivity.
    + apply lookup_ge_None in Hk.
      rewrite !(proj2 (lookup_ge_None _ _)) by lia. reflexivity.
  - rewrite !list_lookup_fmap.
    destruct (rows !! k) as [row |] eqn:Hk.
    + destruct (Hspec1 k row Hk) as (w1 & -> & _ & Hp1 & _).
      destruct (Hspec2 k row Hk) as (w2 & -> & _ & Hp2 & _).
      simpl. congruence.
    + apply lookup_ge_None in Hk.
      rewrite !(proj2 (lookup_ge_None _ _)) by lia. reflexivity.
Qed.

Lemma destination_paths_deterministic_witness :
  match Cataract1k.process_video "case_1.mp4" rows1k_10_20 video_40 "out",
        Cataract1k.process_video "case_1.mp4" rows1k_10_20 video_40_bad_15
          "out" with
  | Cataract1k.Completed dirs1 videos1, Cataract1k.Completed dirs2 videos2 =>
      dirs1 = dirs2 /\ map output_path videos1 = map output_path videos2
  | Cataract1k.Raised e1, Cataract1k.Raised e2 => e1 = e2
  | _, _ => False
  end.
Proof.
  apply (destination_paths_deterministic "case_1.mp4" rows1k_10_20 "out"
           video_40 video_40_bad_15); reflexivity.
Defined.

(** ** Decode failures *)

Lemma write_frames_all (cap : VideoCapture) (n : nat) (pos : Z) :
  (forall x, pos <= x < pos + Z.of_nat n -> decodes cap x = true) ->
  write_frames cap n pos = seqZ pos (Z.of_nat n).
Proof.
  revert pos. induction n as [| n IH]; intros pos Hall; [reflexivity |].
  simpl write_frames. rewrite Hall by lia.
  rewrite IH by (intros x Hx; apply Hall; lia).
  rewrite (seqZ_cons pos) by lia. do 2 f_equal. lia.
Qed.

Lemma write_frames_until (cap : VideoCapture) (n : nat) (pos bad : Z) :
  pos <= bad < pos + Z.of_nat n ->
  (forall x, pos <= x < bad -> decodes cap x = true) ->
  decodes cap bad = false ->
  write_frames cap n pos = seqZ pos (bad - pos).
Proof.
  revert pos. induction n as [| n IH]; intros pos Hbad Hbefore Hfail; [lia |].
  simpl write_frames.
  destruct (Z.eq_dec pos bad) as [-> | Hne].
  - rewrite Hfail. now replace (bad - bad) with 0 by lia.
  - rewrite Hbefore by lia.
    rewrite IH by (try (intros x Hx; apply Hbefore); (lia || assumption)).
    rewrite (seqZ_cons pos) by lia. do 2 f_equal. lia.
Qed.

(** C8. A run of [process_video] on a video that opens completes with one
    video per interval of the timeline, whatever frames fail to decode.
    The video of an interval in which the frame [bad] is the first that
    does not decode holds the frames from the interval's start to
    [bad - 1], in order, and nothing else; the video of an interval all of
    whose frames decode holds them all. *)
Theorem decode_failure_closes_segment (video_file : string)
    (df rows : list Cataract1k.Row) (cap : VideoCapture)
    (output_base_dir case_number : string) :
  get_case_number_from_filename (os_path_basename video_file)
  = inr case_number ->
  Cataract1k.insert_idle_phases df = inr rows ->
  isOpened cap = true ->
  exists (dirs : list string) (videos : list VideoWriter),
    Cataract1k.process_video video_file df cap output_base_dir
    = Cataract1k.Completed dirs videos
    /\ length videos = length rows
    /\ forall (k : nat) (row : Cataract1k.Row),
        rows !! k = Some row ->
        exists w : VideoWriter,
          videos !! k = Some w
          /\ (forall bad : Z,
                 Cataract1k.frame row <= bad <= Cataract1k.endFrame row ->
                 (forall x, Cataract1k.frame row <= x < bad ->
                            decodes cap x = true) ->
                 decodes cap bad = false ->
                 written w
                 = seqZ (Cataract1k.frame row) (bad - Cataract1k.frame row))
          /\ ((forall x,
                  Cataract1k.frame row <= x <= Cataract1k.endFrame row ->
                  decodes cap x = true) ->
              written w
              = seqZ (Cataract1k.frame row)
                  (Cataract1k.endFrame row + 1 - Cataract1k.frame row)).
Proof.
  intros Hcase Hrows Hopen.
  destruct (process_video_spec video_file df rows cap output_base_dir
              case_number Hcase Hrows Hopen)
    as (n & dirs & videos & _ & Hrun & Hlen & _ & Hspec).
  exists dirs, videos. split; [exact Hrun |]. split; [exact Hlen |].
  intros k row Hk. destruct (Hspec k row Hk) as (w & Hw & _ & _ & Hwritten).
  exists w. split; [exact Hw |]. rewrite Hwritten. unfold copy_range. split.
  - intros bad Hbad Hbefore Hfail.
    apply write_frames_until; [lia | assumption..].
  - intros Hall.
    destruct (Z.le_gt_cases (Cataract1k.frame row) (Cataract1k.endFrame row)).
    + rewrite write_frames_all by (intros x Hx; apply Hall; lia).
      f_equal. lia.
    + replace (Z.to_nat _) with 0%nat by lia.
      rewrite seqZ_nil by lia. reflexivity.
Qed.

(** The example of C8: frame 15 of the interval from 10 to 20 does not
    decode; its video holds the frames 10 to 14 and the video of the next
    interval, from 21 to 30, holds all of its frames. *)
Lemma decode_failure_closes_segment_witness :
  exists (dirs : list string) (videos : list VideoWriter),
    Cataract1k.process_video "case_1.mp4" rows1k_10_20 video_40_bad_15 "out"
    = Cataract1k.Completed dirs videos
    /\ map written videos
       = [ [10; 11; 12; 13; 14];
           [21; 22; 23; 24; 25; 26; 27; 28; 29; 30] ].
Proof.
  destruct (decode_failure_closes_segment "case_1.mp4" rows1k_10_20
              rows1k_10_20 video_40_bad_15 "out" "1"
              eq_refl eq_refl eq_refl)
    as (dirs & videos & Hrun & Hlen & Hspec).
  exists dirs, videos. split; [exact Hrun |].
  destruct (Hspec 0%nat _ eq_refl) as (w0 & Hw0 & Hbad0 & _).
  destruct (Hspec 1%nat _ eq_refl) as (w1 & Hw1 & _ & Hall1).
  destruct videos as [| v0 [| v1 [| v2 videos]]]; try discriminate Hlen.
  injection Hw0 as ->. injection Hw1 as ->. simpl.
  rewrite (Hbad0 15).
  - rewrite Hall1; [reflexivity |].
    intros x Hx. simpl in Hx. simpl.
    destruct (Z.eqb_spec x 15); [lia | reflexivity].
  - simpl. lia.
  - intros x Hx. simpl in Hx. simpl.
    destruct (Z.eqb_spec x 15); [lia | reflexivity].
  - reflexivity.
Defined.

(** ** End frames inferred from the next start *)

Lemma split_rows101_spec (cap : VideoCapture)
    (case_number output_base_dir : string) (total_frames : Z) (n : N) :
  py_int_of_str case_number = inr n ->
  forall (df : list (Cataract101.Row * option string))
         (phase_counters : gmap string N),
    Forall (fun named => is_Some named.2) df ->
    exists saved : list Cataract101.Saved,
      Cataract101.split_rows cap case_number output_base_dir total_frames
        phase_counters df = inr saved
      /\ length saved = length df
      /\ forall (k : nat) (named : Cataract101.Row * option string),
          df !! k = Some named ->
          exists sv : Cataract101.Saved,
            saved !! k = Some sv
            /\ Cataract101.saved_start sv = Cataract101.FrameNo named.1
            /\ Cataract101.saved_end sv
               = match df !! S k with
                 | Some next => Cataract101.FrameNo next.1 - 1
                 | None => total_frames - 1
                 end
            /\ written (Cataract101.saved_video sv)
               = copy_range cap (Cataract101.saved_start sv)
                   (Cataract101.saved_end sv).
Proof.
  intros Hint.
  induction df as [| [row phase_name] df IH]; intros phase_counters Hknown.
  - exists []. repeat split. intros k named Hk. discriminate.
  - apply Forall_cons in Hknown as [Hphase Hknown].
    simpl in Hphase. destruct Hphase as [phase ->].
    destruct (IH (counter_incr phase_counters phase) Hknown)
      as (saved & Hrun & Hlen & Hrows).
    cbn [Cataract101.split_rows]. unfold Cataract101.create_writer.
    rewrite Hint, Hrun.
    eexists. split; [reflexivity |]. split; [simpl; lia |].
    intros [| k] named Hk.
    + injection Hk as <-. eexists. split; [reflexivity |].
      split; [reflexivity |]. split; [| reflexivity].
      simpl. destruct df as [| [next p] df]; reflexivity.
    + destruct (Hrows k named Hk) as (sv & Hsv & Hs & He & Hw).
      exists sv. auto.
Qed.

(** C4. A run of the Cataract-101 [process_video] on rows that carry a
    start frame and a phase number of the table: the interval of every
    row but the last ends one frame before the next row's start, and the
    interval of the last row ends at the video's frame count minus 1;
    each video is cut from its row's start to that end. *)
Theorem end_frame_from_next_start (video_file : string)
    (df : list Cataract101.Row) (cap : VideoCapture)
    (output_base_dir case_number : string) :
  get_case_number_from_filename (os_path_basename video_file)
  = inr case_number ->
  isOpened cap = true ->
  Forall (fun row => is_Some (Cataract101.phase_mapping
                                !! Cataract101.Phase row)) df ->
  exists saved : list Cataract101.Saved,
    Cataract101.process_video video_file df cap output_base_dir
    = Cataract101.Completed saved
    /\ length saved = length df
    /\ forall (k : nat) (row : Cataract101.Row),
        df !! k = Some row ->
        exists sv : Cataract101.Saved,
          saved !! k = Some sv
          /\ Cataract101.saved_start sv = Cataract101.FrameNo row
          /\ (forall next : Cataract101.Row,
                 df !! S k = Some next ->
                 Cataract101.saved_end sv = Cataract101.FrameNo next - 1)
          /\ (df !! S k = None ->
              Cataract101.saved_end sv = CAP_PROP_FRAME_COUNT cap - 1)
          /\ written (Cataract101.saved_video sv)
             = copy_range cap (Cataract101.saved_start sv)
                 (Cataract101.saved_end sv).
Proof.
  intros Hcase Hopen Hknown.
  destruct (case_number_is_int _ _ Hcase) as [n Hn].
  destruct (split_rows101_spec cap case_number output_base_dir
              (CAP_PROP_FRAME_COUNT cap) n Hn
              (Cataract101.map_phase_numbers_to_names df) ∅)
    as (saved & Hrun & Hlen & Hrows).
  { unfold Cataract101.map_phase_numbers_to_names.
    apply Forall_fmap. eapply Forall_impl; [exact Hknown |].
    intros row Hrow. exact Hrow. }
  exists saved. split.
  { unfold Cataract101.process_video. now rewrite Hcase, Hopen, Hrun. }
  unfold Cataract101.map_phase_numbers_to_names in Hlen, Hrows.
  split; [now rewrite length_map in Hlen |].
  intros k row Hk.
  destruct (Hrows k (row, Cataract101.phase_mapping !! Cataract101.Phase row))
    as (sv & Hsv & Hs & He & Hw).
  { change (@map) with (@fmap list _). now rewrite list_lookup_fmap, Hk. }
  exists sv. split; [exact Hsv |]. split; [exact Hs |].
  change (@map) with (@fmap list _) in He. rewrite list_lookup_fmap in He.
  split; [| split; [| exact Hw]].
  - intros next Hnext. now rewrite Hnext in He.
  - intros Hnone. now rewrite Hnone in He.
Qed.

Lemma end_frame_from_next_start_witness :
  exists saved : list Cataract101.Saved,
    Cataract101.process_video "case_269.mp4" rows101 video_40 "out"
    = Cataract101.Completed saved
    /\ map (fun sv => (Cataract101.saved_start sv, Cataract101.saved_end sv))
         saved
       = [ (0, 4); (5, 8); (9, 39) ].
Proof.
  destruct (end_frame_from_next_start "case_269.mp4" rows101 video_40 "out"
              "269" eq_refl eq_refl)
    as (saved & Hrun & Hlen & Hrows).
  { repeat constructor; vm_compute; eauto. }
  exists saved. split; [exact Hrun |].
  destruct (Hrows 0%nat _ eq_refl) as (sv0 & H0 & Hs0 & He0 & _).
  destruct (Hrows 1%nat _ eq_refl) as (sv1 & H1 & Hs1 & He1 & _).
  destruct (Hrows 2%nat _ eq_refl) as (sv2 & H2 & Hs2 & _ & He2 & _).
  destruct saved as [| s0 [| s1 [| s2 [| s3 saved]]]]; try discriminate Hlen.
  injection H0 as ->. injection H1 as ->. injection H2 as ->. simpl.
  rewrite Hs0, Hs1, Hs2, (He0 _ eq_refl), (He1 _ eq_refl), (He2 eq_refl).
  reflexivity.
Defined.

(** ** Run-length compression of a label stream *)

Section Scan.

Variable label : Z -> option string.

Lemma scan_positive m closed p fs : scan label m closed p fs -> (0 < m)%nat.
Proof. destruct 1; lia. Qed.

(** The segments hold the frames scanned, each once, in order. *)
Lemma scan_frames m closed p fs :
  scan label m closed p fs ->
  (concat (map snd closed) ++ fs)%list = seqZ 0 (Z.of_nat m).
Proof.
  induction 1 as [p Hp | m closed p fs Hscan IH Hp
                 | m closed p q fs Hscan IH Hq Hne].
  - reflexivity.
  - rewrite seqZ_S, <- IH, Z.add_0_l. now rewrite app_assoc.
  - rewrite seqZ_S, <- IH, Z.add_0_l.
    rewrite map_app, concat_app. simpl. now rewrite app_nil_r.
Qed.

(** The open segment is not empty, carries the label of the last frame
    scanned and ends at it. *)
Lemma scan_open m closed p fs :
  scan label m closed p fs ->
  label (Z.of_nat m - 1) = Some p
  /\ last fs = Some (Z.of_nat m - 1)
  /\ (exists s, head fs = Some s /\ 0 <= s < Z.of_nat m)
  /\ (forall f, f ∈ fs -> label f = Some p).
Proof.
  induction 1 as [p Hp | m closed p fs Hscan IH Hp
                 | m closed p q fs Hscan IH Hq Hne].
  - repeat split; [exact Hp | exists 0; split; [reflexivity | lia] |].
    intros f Hf. apply list_elem_of_singleton in Hf as ->. exact Hp.
  - destruct IH as (Hlast & Hend & (s & Hs & Hrange) & Hall).
    replace (Z.of_nat (S m) - 1) with (Z.of_nat m) by lia.
    repeat split; [exact Hp | apply last_snoc | |].
    + exists s. split; [| lia].
      destruct fs; [discriminate | exact Hs].
    + intros f Hf. apply elem_of_app in Hf as [Hf | Hf]; [now apply Hall |].
      apply list_elem_of_singleton in Hf as ->. exact Hp.
  - replace (Z.of_nat (S m) - 1) with (Z.of_nat m) by lia.
    repeat split; [exact Hq | exists (Z.of_nat m); split; [reflexivity | lia] |].
    intros f Hf. apply list_elem_of_singleton in Hf as ->. exact Hq.
Qed.

(** Every closed segment is not empty and carries the label of each of
    its frames. *)
Lemma scan_closed m closed p fs :
  scan label m closed p fs ->
  Forall (fun seg : string * list Z =>
            seg.2 <> [] /\ forall f, f ∈ seg.2 -> label f = Some seg.1)
    closed.
Proof.
  induction 1 as [p Hp | m closed p fs Hscan IH Hp
                 | m closed p q fs Hscan IH Hq Hne].
  - constructor.
  - exact IH.
  - apply Forall_app. split; [exact IH |].
    destruct (scan_open _ _ _ _ Hscan) as (_ & _ & (s & Hs & _) & Hall).
    repeat constructor; simpl; [| exact Hall].
    intros ->. discriminate.
Qed.

(** A frame opens a segment exactly when it is the first one or its label
    is not the label of the frame before it. *)
Lemma scan_heads m closed p fs :
  scan label m closed p fs ->
  forall f : Z,
    0 <= f < Z.of_nat m ->
    (exists seg, seg ∈ (closed ++ [(p, fs)])%list /\ head seg.2 = Some f)
    <-> (f = 0 \/ label f <> label (f - 1)).
Proof.
  induction 1 as [p Hp | m closed p fs Hscan IH Hp
                 | m closed p q fs Hscan IH Hq Hne]; intros f Hf.
  - split.
    + intros _. left. lia.
    + intros _. exists (p, [0]). split; [apply list_elem_of_singleton; auto |].
      simpl. f_equal. lia.
  - destruct (scan_open _ _ _ _ Hscan) as (Hlast & _ & (s & Hs & Hrange) & _).
    assert (head (fs ++ [Z.of_nat m])%list = head fs) as Hhead
      by (destruct fs; [discriminate | reflexivity]).
    assert ((exists seg, seg ∈ (closed ++ [(p, (fs ++ [Z.of_nat m])%list)])%list
                         /\ head seg.2 = Some f)
            <-> (exists seg, seg ∈ (closed ++ [(p, fs)])%list
                             /\ head seg.2 = Some f)) as Hsame.
    { split; intros (seg & Hin & Hseg);
        apply elem_of_app in Hin as [Hin | Hin].
      - exists seg. split; [apply elem_of_app; auto | exact Hseg].
      - apply list_elem_of_singleton in Hin as ->. simpl in Hseg.
        exists (p, fs). split; [apply elem_of_app; right;
                                apply list_elem_of_singleton; auto |].
        simpl. congruence.
      - exists seg. split; [apply elem_of_app; auto | exact Hseg].
      - apply list_elem_of_singleton in Hin as ->. simpl in Hseg.
        exists (p, (fs ++ [Z.of_nat m])%list).
        split; [apply elem_of_app; right; apply list_elem_of_singleton; auto |].
        simpl. congruence. }
    rewrite Hsame.
    destruct (Z.eq_dec f (Z.of_nat m)) as [-> | Hlt]; [| apply IH; lia].
    split.
    + intros (seg & Hin & Hseg). exfalso.
      assert (Z.of_nat m ∈ seqZ 0 (Z.of_nat m)) as Hmem.
      { rewrite <- (scan_frames _ _ _ _ Hscan).
        apply elem_of_app in Hin as [Hin | Hin].
        - apply elem_of_app. left. apply list_elem_of_In, in_concat.
          exists seg.2. split; [apply in_map, list_elem_of_In, Hin |].
          apply list_elem_of_In. destruct (seg.2); [discriminate |].
          injection Hseg as ->. left.
        - apply list_elem_of_singleton in Hin as ->. simpl in Hseg.
          apply elem_of_app. right. destruct fs; [discriminate |].
          injection Hseg as ->. left. }
      apply elem_of_seqZ in Hmem. lia.
    + intros [H0 | Hdiff]; [pose proof (scan_positive _ _ _ _ Hscan); lia |].
      exfalso. apply Hdiff. now rewrite Hp, Hlast.
  - destruct (scan_open _ _ _ _ Hscan) as (Hlast & _ & _ & _).
    destruct (Z.eq_dec f (Z.of_nat m)) as [-> | Hlt].
    + split.
      * intros _. right. rewrite Hq, Hlast. congruence.
      * intros _. exists (q, [Z.of_nat m]).
        split; [apply elem_of_app; right; apply list_elem_of_singleton; auto |].
        reflexivity.
    + rewrite <- (IH f) by lia. split; intros (seg & Hin & Hseg).
      * apply elem_of_app in Hin as [Hin | Hin]; [eauto |].
        apply list_elem_of_singleton in Hin as ->. simpl in Hseg. congruence.
      * exists seg. split; [apply elem_of_app; auto | exact Hseg].
Qed.

End Scan.

Lemma segments_app (videos1 videos2 : list (string * VideoWriter)) :
  segments (videos1 ++ videos2) = (segments videos1 ++ segments videos2)%list.
Proof. unfold segments. apply map_app. Qed.

Lemma label_at_row (df : list Cataract21.Row) (m : nat) (row : Cataract21.Row) :
  df !! m = Some row ->
  label_at df (Z.of_nat m) = Some (Cataract21.Phase_Name row).
Proof. intros Hrow. unfold label_at. now rewrite Nat2Z.id, Hrow. Qed.

(** One iteration of the frame loop keeps the invariant. *)
Lemma frame_step_invariant (cap : VideoCapture)
    (case_number output_base_dir : string) (df : list Cataract21.Row)
    (m : nat) (st : Cataract21.state) (row : Cataract21.Row) :
  loop_invariant (label_at df) m st ->
  df !! m = Some row ->
  exists st' : Cataract21.state,
    Cataract21.frame_step cap case_number output_base_dir df (Z.of_nat m) st
    = inr st'
    /\ loop_invariant (label_at df) (S m) st'.
Proof.
  intros Hinv Hrow. pose proof (label_at_row df m row Hrow) as Hlabel.
  unfold Cataract21.frame_step. rewrite Nat2Z.id, Hrow.
  destruct m as [| m].
  - simpl in Hinv. subst st. simpl.
    rewrite lookup_insert_eq. eexists. split; [reflexivity |].
    eexists [], _, _. simpl. split; [reflexivity |].
    split; [apply scan_first; exact Hlabel |].
    split; [reflexivity |]. split; [apply lookup_insert_eq | reflexivity].
  - destruct Hinv as (closed & p & w & Hvideos & Hscan & Hprev & Hwriter & Hdirs).
    rewrite Hprev.
    destruct (decide (Some (Cataract21.Phase_Name row) = Some p)) as [Heq | Hne].
    + injection Heq as Heq. rewrite Heq in *. rewrite Hwriter.
      eexists. split; [reflexivity |].
      exists closed, p,
        {| output_path := output_path w; writer_fps := writer_fps w;
           writer_frame_size := writer_frame_size w;
           written := (written w ++ [Z.of_nat (S m)])%list |}.
      cbn [Cataract21.videos Cataract21.previous_phase Cataract21.writers
           Cataract21.dirs written].
      split.
      { rewrite Hvideos.
        replace (length closed) with (length closed + 0)%nat by lia.
        now rewrite alter_app_r. }
      split; [now apply scan_same |].
      split; [reflexivity |]. split; [exact Hwriter |].
      rewrite length_alter. exact Hdirs.
    + unfold Cataract21.open_phase, Cataract21.create_writer.
      cbn [Cataract21.videos Cataract21.previous_phase Cataract21.writers
           Cataract21.dirs Cataract21.phase_counters Cataract21.start_frame].
      rewrite lookup_insert_eq.
      eexists. split; [reflexivity |].
      cbn [Cataract21.videos Cataract21.previous_phase Cataract21.writers
           Cataract21.dirs].
      eexists (closed ++ [(p, w)])%list, (Cataract21.Phase_Name row), _.
      split.
      { rewrite Hvideos.
        replace (length (closed ++ [(p, w)]))
          with (length (closed ++ [(p, w)]) + 0)%nat by lia.
        rewrite alter_app_r. reflexivity. }
      cbn [written]. rewrite segments_app.
      split.
      { apply scan_new; [exact Hscan | exact Hlabel | simpl; congruence]. }
      split; [reflexivity |].
      split; [rewrite Hvideos; apply lookup_insert_eq |].
      cbn [Cataract21.videos Cataract21.dirs].
      rewrite length_alter, !length_app. simpl. lia.
Qed.

(** The frame loop from frame [m] on: [k] frames decode, after which the
    loop ends, for want of iterations or of a frame. *)
Lemma frame_loop_invariant (cap : VideoCapture)
    (case_number output_base_dir : string) (df : list Cataract21.Row)
    (k r m : nat) (st : Cataract21.state) :
  loop_invariant (label_at df) m st ->
  (m + k <= length df)%nat ->
  (forall x : nat, (m <= x < m + k)%nat -> decodes cap (Z.of_nat x) = true) ->
  r = 0%nat \/ decodes cap (Z.of_nat (m + k)) = false ->
  exists st' : Cataract21.state,
    Cataract21.frame_loop cap case_number output_base_dir df (k + r)
      (Z.of_nat m) st = inr st'
    /\ loop_invariant (label_at df) (m + k) st'.
Proof.
  revert m st. induction k as [| k IH]; intros m st Hinv Hlen Hdec Hstop.
  - rewrite Nat.add_0_r in *. exists st. split; [| exact Hinv].
    destruct Hstop as [-> | Hfail]; [reflexivity |].
    destruct r as [| r]; [reflexivity |]. simpl. now rewrite Hfail.
  - destruct (lookup_lt_is_Some_2 df m ltac:(lia)) as [row Hrow].
    destruct (frame_step_invariant cap case_number output_base_dir df m st row
                Hinv Hrow) as (st1 & Hstep & Hinv1).
    cbn [Nat.add Cataract21.frame_loop].
    rewrite Hdec by lia. rewrite Hstep.
    replace (Z.of_nat m + 1) with (Z.of_nat (S m)) by lia.
    replace (m + S k)%nat with (S m + k)%nat in * by lia.
    apply IH; [exact Hinv1 | lia | intros x Hx; apply Hdec; lia | exact Hstop].
Qed.

Lemma length_map_phases (df : list Cataract21.Row) :
  length (Cataract21.map_phases df) = length df.
Proof. unfold Cataract21.map_phases. apply length_map. Qed.

(** A run of the Cataract-21 [process_video] that reads [n] frames, one at
    least, before the loop ends. *)
Lemma process_video21_scan (video_file : string) (df : list Cataract21.Row)
    (cap : VideoCapture) (output_base_dir case_number : string) (n : nat) :
  get_case_number_from_filename (os_path_basename video_file)
  = inr case_number ->
  isOpened cap = true ->
  (0 < n)%nat ->
  Z.of_nat n <= Z.min (CAP_PROP_FRAME_COUNT cap) (Z.of_nat (length df)) ->
  (forall x : nat, (x < n)%nat -> decodes cap (Z.of_nat x) = true) ->
  Z.of_nat n = Z.min (CAP_PROP_FRAME_COUNT cap) (Z.of_nat (length df))
  \/ decodes cap (Z.of_nat n) = false ->
  exists (dirs : list string) (closed : list (string * VideoWriter))
         (p : string) (w : VideoWriter),
    Cataract21.process_video video_file df cap output_base_dir
    = Cataract21.Completed dirs (closed ++ [(p, w)])
    /\ scan (label_at (Cataract21.map_phases df)) n (segments closed) p
         (written w).
Proof.
  intros Hcase Hopen Hpos Hle Hdec Hstop.
  set (F := Z.to_nat (Z.min (CAP_PROP_FRAME_COUNT cap)
                        (Z.of_nat (length (Cataract21.map_phases df))))).
  rewrite <- (length_map_phases df) in Hle, Hstop.
  destruct (frame_loop_invariant cap case_number output_base_dir
              (Cataract21.map_phases df) n (F - n) 0
              Cataract21.initial_state)
    as (st & Hrun & Hinv).
  { reflexivity. }
  { lia. }
  { intros x Hx. apply Hdec. lia. }
  { destruct Hstop as [Hall | Hfail]; [left; lia | right; exact Hfail]. }
  replace (n + (F - n))%nat with F in Hrun by lia.
  simpl in Hinv. destruct n as [| n]; [lia |].
  destruct Hinv as (closed & p & w & Hvideos & Hscan & _).
  exists (Cataract21.dirs st), closed, p, w. split; [| exact Hscan].
  unfold Cataract21.process_video. rewrite Hcase, Hopen. simpl negb. cbv iota.
  fold F. change (Z.of_nat 0) with 0 in Hrun. rewrite Hrun.
  now rewrite Hvideos.
Qed.

(** C5. A run of the Cataract-21 [process_video] that reads the frames
    [0 .. n - 1], [n >= 1], of the label stream and then ends (the stream
    or the video is exhausted, or frame [n] does not decode).  The
    segments hold the frames read, each once and in order; every segment
    is not empty and carries the normalised label of each of its frames;
    a frame opens a segment exactly when it is the first one or its
    normalised label is not that of the frame before it; the last segment
    ends at frame [n - 1].  The stream I, I, A, A, A, B yields the
    intervals (I, 0, 1), (A, 2, 4), (B, 5, 5). *)
Theorem run_length_compression :
  (forall (video_file : string) (df : list Cataract21.Row)
          (cap : VideoCapture) (output_base_dir case_number : string)
          (n : nat),
      get_case_number_from_filename (os_path_basename video_file)
      = inr case_number ->
      isOpened cap = true ->
      (0 < n)%nat ->
      Z.of_nat n <= Z.min (CAP_PROP_FRAME_COUNT cap) (Z.of_nat (length df)) ->
      (forall x : nat, (x < n)%nat -> decodes cap (Z.of_nat x) = true) ->
      Z.of_nat n = Z.min (CAP_PROP_FRAME_COUNT cap) (Z.of_nat (length df))
      \/ decodes cap (Z.of_nat n) = false ->
      exists (dirs : list string) (videos : list (string * VideoWriter)),
        Cataract21.process_video video_file df cap output_base_dir
        = Cataract21.Completed dirs videos
        /\ concat (map snd (segments videos)) = seqZ 0 (Z.of_nat n)
        /\ Forall (fun seg : string * list Z =>
                     seg.2 <> []
                     /\ forall f, f ∈ seg.2 ->
                          label_at (Cataract21.map_phases df) f = Some seg.1)
             (segments videos)
        /\ (forall f : Z,
               0 <= f < Z.of_nat n ->
               (exists seg, seg ∈ segments videos /\ head seg.2 = Some f)
               <-> label_changes (Cataract21.map_phases df) f)
        /\ (exists seg, last (segments videos) = Some seg
                        /\ last seg.2 = Some (Z.of_nat n - 1)))
  /\ (exists (dirs : list string) (videos : list (string * VideoWriter)),
         Cataract21.process_video "case_1.mp4" labels_I_I_A_A_A_B video_40
           "out" = Cataract21.Completed dirs videos
         /\ intervals videos = [ ("I", 0, 1); ("A", 2, 4); ("B", 5, 5) ]).
Proof.
  split.
  - intros video_file df cap output_base_dir case_number n
      Hcase Hopen Hpos Hle Hdec Hstop.
    destruct (process_video21_scan video_file df cap output_base_dir
                case_number n Hcase Hopen Hpos Hle Hdec Hstop)
      as (dirs & closed & p & w & Hrun & Hscan).
    exists dirs, (closed ++ [(p, w)])%list. split; [exact Hrun |].
    rewrite segments_app. change (segments [(p, w)]) with [(p, written w)].
    destruct (scan_open _ _ _ _ _ Hscan) as (_ & Hend & (s & Hs & _) & Hall).
    split; [| split; [| split]].
    + rewrite map_app, concat_app. simpl. rewrite app_nil_r.
      exact (scan_frames _ _ _ _ _ Hscan).
    + apply Forall_app. split; [exact (scan_closed _ _ _ _ _ Hscan) |].
      repeat constructor; simpl; [| exact Hall].
      intros Hnil. rewrite Hnil in Hs. discriminate.
    + intros f Hf. exact (scan_heads _ _ _ _ _ Hscan f Hf).
    + exists (p, written w). split; [apply last_snoc | exact Hend].
  - eexists _, _. split; vm_compute; reflexivity.
Qed.

Lemma run_length_compression_witness :
  exists (dirs : list string) (videos : list (string * VideoWriter)),
    Cataract21.process_video "case_1.mp4" labels_I_I_A_A_A_B video_40 "out"
    = Cataract21.Completed dirs videos
    /\ concat (map snd (segments videos)) = seqZ 0 (Z.of_nat 6)
    /\ Forall (fun seg : string * list Z =>
                 seg.2 <> []
                 /\ forall f, f ∈ seg.2 ->
                      label_at (Cataract21.map_phases labels_I_I_A_A_A_B) f
                      = Some seg.1)
         (segments videos)
    /\ (forall f : Z,
           0 <= f < Z.of_nat 6 ->
           (exists seg, seg ∈ segments videos /\ head seg.2 = Some f)
           <-> label_changes (Cataract21.map_phases labels_I_I_A_A_A_B) f)
    /\ (exists seg, last (segments videos) = Some seg
                    /\ last seg.2 = Some (Z.of_nat 6 - 1)).
Proof.
  destruct run_length_compression as [Hgeneral _].
  apply (Hgeneral "case_1.mp4" labels_I_I_A_A_A_B video_40 "out" "1" 6%nat).
  - reflexivity.
  - reflexivity.
  - lia.
  - simpl. lia.
  - intros x Hx. reflexivity.
  - left. reflexivity.
Defined.

(** ** An empty label stream *)




(** * Further properties of the scripts *)

(** ** [insert_idle_phases] *)

Lemma idle_loop_cons (row next : Cataract1k.Row) (df : list Cataract1k.Row) :
  Cataract1k.idle_loop (row :: next :: df)
  = ((row ::
        (if (0 <? Cataract1k.frame next - Cataract1k.endFrame row - 1)%Z
         then [Cataract1k.idle_phase row next] else []))
     ++ Cataract1k.idle_loop (next :: df))%list.
Proof. reflexivity. Qed.






Lemma idle_loop_rows (row : Cataract1k.Row) (df : list Cataract1k.Row)
    (last_row : Cataract1k.Row) :
  last (row :: df) = Some last_row ->
  (row :: df) `sublist_of`
    (Cataract1k.idle_loop (row :: df) ++ [last_row])%list
  /\ Forall (fun r => r ∈ row :: df
                      \/ (Cataract1k.comment r = "Idle"
                          /\ Cataract1k.frame r <= Cataract1k.endFrame r))
       (Cataract1k.idle_loop (row :: df) ++ [last_row])%list
  /\ (length (Cataract1k.idle_loop (row :: df) ++ [last_row])%list
      <= 2 * length (row :: df) - 1)%nat.
Proof.
  revert row. induction df as [| next df IH]; intros row Hlast.
  - injection Hlast as <-. simpl. split; [reflexivity |]. split; [| lia].
    repeat constructor.
  - change (last (next :: df) = Some last_row) in Hlast.
    destruct (IH next Hlast) as (Hsub & Hall & Hlen).
    rewrite idle_loop_cons, <- app_assoc.
    assert (Forall (fun r => r ∈ row :: next :: df
                             \/ (Cataract1k.comment r = "Idle"
                                 /\ Cataract1k.frame r <= Cataract1k.endFrame r))
              (Cataract1k.idle_loop (next :: df) ++ [last_row])%list)
      as Hall'.
    { eapply Forall_impl; [exact Hall |].
      intros r [Hin | Hidle]; [left; now apply elem_of_cons; right | now right]. }
    destruct (Z.ltb_spec 0 (Cataract1k.frame next - Cataract1k.endFrame row - 1)).
    + cbn [app]. split; [| split].
      * apply sublist_skip, sublist_cons, Hsub.
      * constructor; [left; apply elem_of_cons; now left |].
        constructor; [right; simpl; split; [reflexivity | lia] | exact Hall'].
      * cbn [length] in *. lia.
    + cbn [app]. split; [| split].
      * apply sublist_skip, Hsub.
      * constructor; [left; apply elem_of_cons; now left | exact Hall'].
      * cbn [length] in *. lia.
Qed.

Lemma idle_rows_kept (df rows : list Cataract1k.Row) :
  Cataract1k.insert_idle_phases df = inr rows ->
  df `sublist_of` rows
  /\ (forall r, r ∈ rows ->
        r ∈ df \/ (Cataract1k.comment r = "Idle"
                   /\ Cataract1k.frame r <= Cataract1k.endFrame r))
  /\ (length df <= length rows <= 2 * length df - 1)%nat.
Proof.
  intros Hrun. destruct df as [| row df]; [discriminate |].
  unfold Cataract1k.insert_idle_phases in Hrun.
  destruct (last (row :: df)) as [last_row |] eqn:Hlast; [| discriminate].
  assert ((Cataract1k.idle_loop (row :: df) ++ [last_row])%list = rows)
    as Hrows by congruence.
  destruct (idle_loop_rows row df last_row Hlast) as (Hsub & Hall & Hlen).
  rewrite Hrows in Hsub, Hall, Hlen.
  split; [exact Hsub |]. split.
  - intros r Hr. rewrite Forall_forall in Hall. now apply Hall.
  - split; [now apply sublist_length | exact Hlen].
Qed.



(** ** Strings and paths *)

Lemma append_String (x : ascii) (a b : string) :
  String x a ++ b = String x (a ++ b).
Proof. reflexivity. Qed.

Lemma append_Empty (b : string) : "" ++ b = b.
Proof. reflexivity. Qed.

Lemma append_assoc (a b c : string) : (a ++ b) ++ c = a ++ (b ++ c).
Proof.
  induction a as [| x a IH]; [reflexivity |].
  rewrite !append_String. now rewrite IH.
Qed.

Lemma append_Empty_r (a : string) : a ++ "" = a.
Proof.
  induction a as [| x a IH]; [reflexivity |].
  rewrite append_String. now rewrite IH.
Qed.

Lemma append_length (a b : string) :
  String.length (a ++ b) = (String.length a + String.length b)%nat.
Proof.
  induction a as [| x a IH]; [reflexivity |].
  rewrite append_String. simpl. now rewrite IH.
Qed.

Lemma append_inv_head (a b c : string) : a ++ b = a ++ c -> b = c.
Proof.
  induction a as [| x a IH]; [auto |].
  rewrite !append_String. intros [= H]. auto.
Qed.

Lemma append_inv_tail (a b c : string) : a ++ c = b ++ c -> a = b.
Proof.
  revert b. induction a as [| x a IH]; intros [| y b] H.
  - reflexivity.
  - apply (f_equal String.length) in H.
    rewrite append_Empty, append_length in H. simpl in H. lia.
  - apply (f_equal String.length) in H.
    rewrite append_Empty, append_length in H. simpl in H. lia.
  - rewrite !append_String in H. injection H as -> H. f_equal. now apply IH.
Qed.

(** Two strings without ["/"] followed by ["/"] and more: the first ["/"]
    tells where each ends. *)
Lemma append_sep_inj (p q a b : string) :
  no_sep p = true -> no_sep q = true ->
  p ++ String "/" a = q ++ String "/" b -> p = q /\ a = b.
Proof.
  revert q. induction p as [| x p IH]; intros [| y q] Hp Hq H;
    rewrite ?append_String, ?append_Empty in H.
  - injection H as ->. auto.
  - injection H as <- _. simpl in Hq. discriminate.
  - injection H as -> _. simpl in Hp. discriminate.
  - injection H as -> H. simpl in Hp, Hq.
    apply andb_true_iff in Hp as [_ Hp]. apply andb_true_iff in Hq as [_ Hq].
    destruct (IH q Hp Hq H) as [-> ->]. auto.
Qed.

Lemma no_sep_append (a b : string) :
  no_sep (a ++ b) = no_sep a && no_sep b.
Proof.
  induction a as [| x a IH]; [reflexivity |].
  rewrite append_String. simpl. rewrite IH. now rewrite andb_assoc.
Qed.

Lemma no_sep_starts (b : string) : no_sep b = true -> starts_with_sep b = false.
Proof.
  destruct b as [| c b]; simpl; [reflexivity |].
  destruct (Ascii.eqb c "/"); [discriminate | reflexivity].
Qed.

Lemma ends_with_sep_append (a b : string) :
  b <> "" -> ends_with_sep (a ++ b) = ends_with_sep b.
Proof.
  intros Hb. induction a as [| x a IH]; [reflexivity |].
  rewrite append_String. simpl.
  destruct (a ++ b) eqn:Hab; [| exact IH].
  destruct a; [rewrite append_Empty in Hab; contradiction |].
  rewrite append_String in Hab. discriminate.
Qed.

Lemma no_sep_ends (b : string) : no_sep b = true -> ends_with_sep b = false.
Proof.
  induction b as [| c b IH]; simpl; [reflexivity |].
  intros H. apply andb_true_iff in H as [Hc Hb].
  destruct b as [| d b]; [now destruct (Ascii.eqb c "/") | now apply IH].
Qed.

Lemma basename_from_no_sep (component b : string) :
  no_sep b = true -> basename_from component b = component ++ b.
Proof.
  revert component. induction b as [| c b IH]; intros component Hb; simpl.
  - now rewrite append_Empty_r.
  - simpl in Hb. apply andb_true_iff in Hb as [Hc Hb].
    destruct (Ascii.eqb c "/"); [discriminate |].
    rewrite IH by assumption. rewrite append_assoc. reflexivity.
Qed.

Lemma basename_from_append (component a b : string) :
  ends_with_sep a = true ->
  basename_from component (a ++ b) = basename_from "" b.
Proof.
  revert component. induction a as [| x a IH]; intros component Ha;
    [discriminate |].
  rewrite append_String. simpl. destruct a as [| y a].
  - simpl in Ha. rewrite Ha. reflexivity.
  - destruct (Ascii.eqb x "/"); apply IH; exact Ha.
Qed.

(** The base name of a path made by [os.path.join] from any directory
    and a name without ["/"] is that name. *)
Lemma basename_of_join (a b : string) :
  no_sep b = true -> os_path_basename (os_path_join a b) = b.
Proof.
  intros Hb. unfold os_path_join, os_path_basename.
  rewrite (no_sep_starts b Hb).
  destruct (String.eqb_spec a "") as [-> | Ha]; simpl.
  - rewrite append_Empty. now rewrite basename_from_no_sep.
  - destruct (ends_with_sep a) eqn:Hsep.
    + rewrite basename_from_append by assumption.
      now rewrite basename_from_no_sep.
    + rewrite <- append_assoc.
      rewrite basename_from_append, basename_from_no_sep; [reflexivity | exact Hb |].
      rewrite ends_with_sep_append; [reflexivity | discriminate].
Qed.

(** ** Case numbers *)

Lemma all_digits_String (c : ascii) (s : string) :
  all_digits (String c s) = is_digit c && all_digits s.
Proof. reflexivity. Qed.

Lemma take_digits_all_digits (s : string) : all_digits (take_digits s) = true.
Proof.
  induction s as [| c s IH]; [reflexivity |]. simpl.
  destruct (is_digit c) eqn:Hc; [| reflexivity].
  rewrite all_digits_String, Hc. exact IH.
Qed.

Lemma take_digits_append (d rest : string) :
  all_digits d = true ->
  take_digits rest = "" ->
  take_digits (d ++ rest) = d.
Proof.
  intros Hd Hrest. induction d as [| c d IH].
  - now rewrite append_Empty.
  - rewrite all_digits_String in Hd. apply andb_true_iff in Hd as [Hc Hd].
    rewrite append_String. simpl. rewrite Hc. now rewrite IH.
Qed.

Lemma re_search_case_digits (s d : string) :
  re_search_case s = Some d -> d <> "" /\ all_digits d = true.
Proof.
  assert (forall s, match_case_here s = Some d ->
                    d <> "" /\ all_digits d = true) as Hhere.
  { clear s. intros s. unfold match_case_here.
    destruct (prefix_ignorecase "case_" s) as [rest |]; [| discriminate].
    pose proof (take_digits_all_digits rest) as Hall.
    destruct (take_digits rest) as [| c r]; [discriminate |].
    intros [= <-]. split; [discriminate | exact Hall]. }
  induction s as [| c s IH]; intros Hsearch.
  - discriminate Hsearch.
  - cbn [re_search_case] in Hsearch.
    destruct (match_case_here (String c s)) eqn:Hm.
    + injection Hsearch as ->. eauto.
    + auto.
Qed.

Lemma case_number_again (filename case_number video_dir : string) :
  get_case_number_from_filename filename = inr case_number ->
  case_number <> ""
  /\ all_digits case_number = true
  /\ get_case_number_from_filename
       (os_path_basename
          (os_path_join video_dir ("case_" ++ case_number ++ ".mp4")))
     = inr case_number.
Proof.
  unfold get_case_number_from_filename at 1.
  destruct (re_search_case filename) as [d |] eqn:Hsearch; [| discriminate].
  intros [= <-].
  destruct (re_search_case_digits filename d Hsearch) as [Hne Hall].
  split; [exact Hne |]. split; [exact Hall |].
  assert (no_sep ("case_" ++ d ++ ".mp4") = true) as Hsep.
  { rewrite !no_sep_append. apply andb_true_iff. split; [reflexivity |].
    apply andb_true_iff. split; [| reflexivity].
    clear Hne Hsearch. induction d as [| c d IH]; [reflexivity |].
    rewrite all_digits_String in Hall. apply andb_true_iff in Hall as [Hc Hd].
    simpl. rewrite IH by assumption. rewrite andb_true_r.
    destruct (Ascii.eqb_spec c "/") as [-> | _]; [discriminate | reflexivity]. }
  rewrite basename_of_join by exact Hsep.
  unfold get_case_number_from_filename.
  rewrite !append_String, append_Empty.
  cbn [re_search_case]. unfold match_case_here. cbn [prefix_ignorecase].
  change (Ascii.eqb (ascii_lower "c") (ascii_lower "c")) with true.
  change (Ascii.eqb (ascii_lower "a") (ascii_lower "a")) with true.
  change (Ascii.eqb (ascii_lower "s") (ascii_lower "s")) with true.
  change (Ascii.eqb (ascii_lower "e") (ascii_lower "e")) with true.
  change (Ascii.eqb (ascii_lower "_") (ascii_lower "_")) with true.
  cbv iota.
  rewrite (take_digits_append d ".mp4" Hall eq_refl).
  destruct d; [contradiction | reflexivity].
Qed.



(** ** Outcomes of the Cataract-1k [process_video] *)

Lemma outcomes1k (video_file : string) (df : list Cataract1k.Row)
    (cap : VideoCapture) (output_base_dir : string) :
  match Cataract1k.process_video video_file df cap output_base_dir with
  | Cataract1k.Raised e =>
      (e = ValueError
       /\ get_case_number_from_filename (os_path_basename video_file)
          = inl ValueError)
      \/ (e = IndexError /\ df = [])
  | Cataract1k.NotOpened => isOpened cap = false /\ df <> []
  | Cataract1k.Completed dirs videos =>
      isOpened cap = true
      /\ exists (case_number : string) (n : N) (rows : list Cataract1k.Row),
          get_case_number_from_filename (os_path_basename video_file)
          = inr case_number
          /\ py_int_of_str case_number = inr n
          /\ Cataract1k.insert_idle_phases df = inr rows
          /\ length videos = length rows
          /\ length dirs = length rows
          /\ forall (k : nat) (row : Cataract1k.Row),
              rows !! k = Some row ->
              exists w : VideoWriter,
                videos !! k = Some w
                /\ dirs !! k = Some (os_path_join output_base_dir (phase_of row))
                /\ output_path w
                   = os_path_join (os_path_join output_base_dir (phase_of row))
                       (Cataract1k.output_filename n (phase_of row)
                          (occurrences (phase_of row) (take (S k) rows)))
  end.
Proof.
  destruct (get_case_number_from_filename (os_path_basename video_file))
    as [e | case_number] eqn:Hcase.
  { unfold Cataract1k.process_video. rewrite Hcase. left.
    unfold get_case_number_from_filename in Hcase.
    destruct (re_search_case _); [discriminate |]. injection Hcase as <-. auto. }
  destruct (Cataract1k.insert_idle_phases df) as [e | rows] eqn:Hrows.
  { unfold Cataract1k.process_video. rewrite Hcase, Hrows. right.
    unfold Cataract1k.insert_idle_phases in Hrows.
    destruct (last df) eqn:Hlast; [discriminate |].
    injection Hrows as <-. apply last_None in Hlast. auto. }
  assert (df <> []) as Hne by (intros ->; discriminate Hrows).
  destruct (isOpened cap) eqn:Hopen.
  - destruct (process_video_spec video_file df rows cap output_base_dir
                case_number Hcase Hrows Hopen)
      as (n & dirs & videos & Hn & -> & Hlen & Hlend & Hspec).
    split; [reflexivity |]. exists case_number, n, rows.
    repeat (split; [first [assumption | reflexivity] |]).
    intros k row Hk.
    destruct (Hspec k row Hk) as (w & Hw & Hdir & Hpath & _). eauto.
  - unfold Cataract1k.process_video. rewrite Hcase, Hrows, Hopen. simpl. auto.
Qed.


Lemma split_rows_same_number (cap : VideoCapture)
    (case_number1 case_number2 output_base_dir : string) :
  py_int_of_str case_number1 = py_int_of_str case_number2 ->
  forall (df : list Cataract1k.Row) (phase_counters : gmap string N),
    Cataract1k.split_rows cap case_number1 output_base_dir phase_counters df
    = Cataract1k.split_rows cap case_number2 output_base_dir phase_counters df.
Proof.
  intros Hsame. induction df as [| row df IH]; intros phase_counters;
    [reflexivity |].
  cbn [Cataract1k.split_rows]. unfold Cataract1k.create_writer.
  rewrite Hsame. destruct (py_int_of_str case_number2); [reflexivity |].
  now rewrite IH.
Qed.

(** X5. The case number enters the output only through its integer value:
    two videos whose names carry numbers of the same value, such as
    [case_7.mp4] and [case_007.mp4], are split into the same files under
    the same paths, the second run writing over the first. *)
Theorem same_number_same_files (video_file1 video_file2 : string)
    (case_number1 case_number2 : string) (df : list Cataract1k.Row)
    (cap : VideoCapture) (output_base_dir : string) :
  get_case_number_from_filename (os_path_basename video_file1)
  = inr case_number1 ->
  get_case_number_from_filename (os_path_basename video_file2)
  = inr case_number2 ->
  py_int_of_str case_number1 = py_int_of_str case_number2 ->
  Cataract1k.process_video video_file1 df cap output_base_dir
  = Cataract1k.process_video video_file2 df cap output_base_dir.
Proof.
  intros Hcase1 Hcase2 Hsame. unfold Cataract1k.process_video.
  rewrite Hcase1, Hcase2.
  destruct (Cataract1k.insert_idle_phases df); [reflexivity |].
  destruct (negb (isOpened cap)); [reflexivity |].
  now rewrite (split_rows_same_number cap case_number1 case_number2
                 output_base_dir Hsame).
Qed.

Lemma same_number_same_files_witness :
  Cataract1k.process_video "case_7.mp4" rows1k_A_B_A_A video_40 "out"
  = Cataract1k.process_video "case_007.mp4" rows1k_A_B_A_A video_40 "out".
Proof.
  apply (same_number_same_files "case_7.mp4" "case_007.mp4" "7" "007");
    reflexivity.
Defined.

(** ** Distinct destinations within a case *)

Lemma occurrences_increase (rows : list Cataract1k.Row) (j k : nat)
    (row_j row_k : Cataract1k.Row) :
  (j < k)%nat ->
  rows !! j = Some row_j -> rows !! k = Some row_k ->
  phase_of row_j = phase_of row_k ->
  (1 <= occurrences (phase_of row_j) (take (S j) rows)
   < occurrences (phase_of row_k) (take (S k) rows))%N.
Proof.
  intros Hjk Hj Hk Hphase.
  rewrite (occurrences_take_S rows j row_j Hj).
  rewrite (occurrences_take_S rows k row_k Hk).
  pose proof (occurrences_take_le (phase_of row_k) rows (S j) k ltac:(lia))
    as Hle.
  rewrite <- Hphase in Hle at 1.
  rewrite (occurrences_take_S rows j row_j Hj), Hphase in Hle.
  rewrite Hphase. lia.
Qed.

Lemma occurrence_suffix_inj (c1 c2 : N) :
  (1 <= c1)%N -> (1 <= c2)%N ->
  occurrence_suffix c1 = occurrence_suffix c2 -> c1 = c2.
Proof.
  unfold occurrence_suffix. intros H1 H2.
  destruct (N.ltb_spec 1 c1), (N.ltb_spec 1 c2); rewrite ?append_String,
    ?append_Empty; intros Heq; try discriminate; [| lia].
  injection Heq as Heq. now apply (inj pretty).
Qed.

Lemma output_filename_inj (n : N) (phase : string) (c1 c2 : N) :
  (1 <= c1)%N -> (1 <= c2)%N ->
  Cataract1k.output_filename n phase c1 = Cataract1k.output_filename n phase c2 ->
  c1 = c2.
Proof.
  intros H1 H2 Heq. unfold Cataract1k.output_filename in Heq.
  do 4 apply append_inv_head in Heq.
  apply append_inv_tail in Heq. now apply occurrence_suffix_inj.
Qed.

(** The path of a video whose phase is a plain directory name. *)
Lemma video_path_shape (output_base_dir phase : string) (n count : N) :
  phase <> "" -> no_sep phase = true ->
  exists prefix : string,
    (prefix = output_base_dir \/ prefix = output_base_dir ++ "/")
    /\ os_path_join (os_path_join output_base_dir phase)
         (Cataract1k.output_filename n phase count)
       = prefix ++ phase
           ++ String "/" (Cataract1k.output_filename n phase count).
Proof.
  intros Hne Hsep.
  assert (exists prefix,
             (prefix = output_base_dir \/ prefix = output_base_dir ++ "/")
             /\ os_path_join output_base_dir phase = prefix ++ phase)
    as (prefix & Hprefix & Hdir).
  { unfold os_path_join. rewrite (no_sep_starts phase Hsep).
    destruct (_ || _)%bool.
    - exists output_base_dir. auto.
    - exists (output_base_dir ++ "/"). split; [auto |].
      now rewrite append_assoc. }
  exists prefix. split; [exact Hprefix |]. rewrite Hdir.
  unfold os_path_join at 1.
  change (starts_with_sep (Cataract1k.output_filename n phase count))
    with false. cbv iota.
  rewrite ends_with_sep_append by exact Hne.
  rewrite (no_sep_ends phase Hsep), orb_false_r.
  destruct (String.eqb_spec (prefix ++ phase) "") as [Hempty | _].
  - apply (f_equal String.length) in Hempty.
    rewrite append_length in Hempty. destruct phase; [contradiction |].
    simpl in Hempty. lia.
  - now rewrite append_assoc.
Qed.

(** X6. Within a case no two intervals get the same destination: when
    every phase of the table is a non-empty name without ["/"], the paths
    of the videos that [process_video] opens are pairwise different. *)
Theorem destination_paths_distinct (video_file : string)
    (df : list Cataract1k.Row) (cap : VideoCapture) (output_base_dir : string)
    (dirs : list string) (videos : list VideoWriter) :
  (forall row, row ∈ df -> phase_of row <> "" /\ no_sep (phase_of row) = true) ->
  Cataract1k.process_video video_file df cap output_base_dir
  = Cataract1k.Completed dirs videos ->
  NoDup (output_path <$> videos).
Proof.
  intros Hphases Hrun.
  pose proof (outcomes1k video_file df cap output_base_dir) as Hout.
  rewrite Hrun in Hout.
  destruct Hout as (_ & case_number & n & rows & _ & _ & Hrows & Hlen & _ & Hspec).
  destruct (idle_rows_kept df rows Hrows) as (_ & Hfrom & _).
  assert (forall row, row ∈ rows ->
            phase_of row <> "" /\ no_sep (phase_of row) = true) as Hplain.
  { intros row Hrow. destruct (Hfrom row Hrow) as [Hin | [Hidle _]];
      [now apply Hphases |].
    unfold phase_of. rewrite Hidle. split; [discriminate | reflexivity]. }
  assert (forall i j wi wj,
            (i < j)%nat -> videos !! i = Some wi -> videos !! j = Some wj ->
            output_path wi <> output_path wj) as Hlt.
  { intros i j wi wj Hij Hi Hj Heq.
    destruct (lookup_lt_is_Some_2 rows i) as [ri Hri];
      [apply lookup_lt_Some in Hi; lia |].
    destruct (lookup_lt_is_Some_2 rows j) as [rj Hrj];
      [apply lookup_lt_Some in Hj; lia |].
    destruct (Hspec i ri Hri) as (wi' & Hwi & _ & Hpi).
    destruct (Hspec j rj Hrj) as (wj' & Hwj & _ & Hpj).
    assert (wi' = wi) as -> by congruence.
    assert (wj' = wj) as -> by congruence.
    destruct (Hplain ri (list_elem_of_lookup_2 _ _ _ Hri)) as [Hnei Hsepi].
    destruct (Hplain rj (list_elem_of_lookup_2 _ _ _ Hrj)) as [Hnej Hsepj].
    destruct (video_path_shape output_base_dir (phase_of ri) n
                (occurrences (phase_of ri) (take (S i) rows)) Hnei Hsepi)
      as (prefix_i & Hprefix_i & Hshape_i).
    destruct (video_path_shape output_base_dir (phase_of rj) n
                (occurrences (phase_of rj) (take (S j) rows)) Hnej Hsepj)
      as (prefix_j & Hprefix_j & Hshape_j).
    rewrite Hpi, Hpj, Hshape_i, Hshape_j in Heq.
    assert (phase_of ri = phase_of rj
            /\ Cataract1k.output_filename n (phase_of ri)
                 (occurrences (phase_of ri) (take (S i) rows))
               = Cataract1k.output_filename n (phase_of rj)
                   (occurrences (phase_of rj) (take (S j) rows)))
      as [Hphase Hname].
    { destruct Hprefix_i as [-> | ->], Hprefix_j as [-> | ->];
        rewrite ?append_assoc in Heq; apply append_inv_head in Heq;
        rewrite ?append_String, ?append_Empty in Heq.
      - now apply append_sep_inj.
      - destruct (phase_of ri) as [| c p] eqn:Hp; [contradiction |].
        rewrite append_String in Heq. injection Heq as -> _.
        simpl in Hsepi. discriminate.
      - destruct (phase_of rj) as [| c p] eqn:Hp; [contradiction |].
        rewrite append_String in Heq. injection Heq as <- _.
        simpl in Hsepj. discriminate.
      - injection Heq as Heq. now apply append_sep_inj. }
    pose proof (occurrences_increase rows i j ri rj Hij Hri Hrj Hphase)
      as Hinc.
    rewrite <- Hphase in Hname at 1.
    apply output_filename_inj in Hname; lia. }
  apply NoDup_alt. intros i j path Hi Hj.
  rewrite list_lookup_fmap in Hi, Hj.
  destruct (videos !! i) as [wi |] eqn:Hwi; [| discriminate].
  destruct (videos !! j) as [wj |] eqn:Hwj; [| discriminate].
  simpl in Hi, Hj.
  destruct (Nat.lt_trichotomy i j) as [Hij | [-> | Hji]]; [| reflexivity |].
  - exfalso. apply (Hlt i j wi wj Hij Hwi Hwj). congruence.
  - exfalso. apply (Hlt j i wj wi Hji Hwj Hwi). congruence.
Qed.

Lemma destination_paths_distinct_witness :
  exists (dirs : list string) (videos : list VideoWriter),
    Cataract1k.process_video "case_1.mp4" rows1k_A_B_A_A video_40 "out"
    = Cataract1k.Completed dirs videos
    /\ NoDup (output_path <$> videos).
Proof.
  eexists _, _. split; [reflexivity |].
  eapply (destination_paths_distinct "case_1.mp4" rows1k_A_B_A_A video_40 "out").
  - intros row Hrow.
    repeat (apply elem_of_cons in Hrow as [-> | Hrow];
            [split; [discriminate | reflexivity] |]).
    apply elem_of_nil in Hrow. contradiction.
  - reflexivity.
Defined.

(** ** The batch driver [process_all_videos] *)

Lemma get_case_number_error (filename : string) (e : exn) :
  get_case_number_from_filename filename = inl e -> e = ValueError.
Proof.
  unfold get_case_number_from_filename.
  destruct (re_search_case filename); [discriminate | congruence].
Qed.




Lemma completed_named_after (video_file : string) (df : list Cataract1k.Row)
    (cap : VideoCapture) (output_base_dir case_number : string)
    (dirs : list string) (videos : list VideoWriter) :
  get_case_number_from_filename (os_path_basename video_file)
  = inr case_number ->
  Cataract1k.process_video video_file df cap output_base_dir
  = Cataract1k.Completed dirs videos ->
  exists n : N,
    py_int_of_str case_number = inr n
    /\ Forall (fun w =>
                 exists (phase : string) (count : N),
                   output_path w
                   = os_path_join (os_path_join output_base_dir phase)
                       (Cataract1k.output_filename n phase count))
         videos.
Proof.
  intros Hcase Hrun.
  pose proof (outcomes1k video_file df cap output_base_dir) as Hout.
  rewrite Hrun in Hout.
  destruct Hout as (_ & c & n & rows & Hc & Hn & _ & Hlen & _ & Hspec).
  assert (c = case_number) as -> by congruence.
  exists n. split; [exact Hn |].
  apply Forall_lookup. intros k w Hw.
  destruct (lookup_lt_is_Some_2 rows k) as [row Hrow];
    [apply lookup_lt_Some in Hw; lia |].
  destruct (Hspec k row Hrow) as (w' & Hw' & _ & Hpath).
  assert (w' = w) as -> by congruence. eauto.
Qed.

Lemma process_files_reports (env : Cataract1kBatch.world)
    (video_dir output_base_dir root : string) (files : list string)
    (reports : list Cataract1kBatch.report) (oe : option exn) :
  Cataract1kBatch.process_files env video_dir output_base_dir root files
  = (reports, oe) ->
  Forall (report_of_walk [(root, files)] video_dir output_base_dir) reports.
Proof.
  revert reports oe.
  induction files as [| file files IH]; intros reports oe Hrun.
  { injection Hrun as <- _. constructor. }
  cbn [Cataract1kBatch.process_files] in Hrun.
  assert (forall rs oe',
             Cataract1kBatch.process_files env video_dir output_base_dir root
               files = (rs, oe') ->
             Forall (report_of_walk [(root, file :: files)] video_dir
                       output_base_dir) rs) as Hrest.
  { intros rs oe' Hrs. eapply Forall_impl; [exact (IH rs oe' Hrs) |].
    intros r (root0 & files0 & file0 & c & Hwalk & Hin & Hrest).
    apply list_elem_of_singleton in Hwalk. injection Hwalk as -> ->.
    exists root, (file :: files), file0, c.
    split; [apply list_elem_of_singleton; reflexivity |].
    split; [apply elem_of_cons; now right | exact Hrest]. }
  assert (forall c r,
             get_case_number_from_filename file = inr c ->
             match r with
             | Cataract1kBatch.Missing csv_file =>
                 csv_file = os_path_join root file
             | Cataract1kBatch.Ran video_file csv_file result =>
                 csv_file = os_path_join root file
                 /\ video_file
                    = os_path_join video_dir ("case_" ++ c ++ ".mp4")
                 /\ match result with
                    | Cataract1k.Raised _ => False
                    | Cataract1k.NotOpened => True
                    | Cataract1k.Completed dirs videos =>
                        exists n : N,
                          py_int_of_str c = inr n
                          /\ Forall
                               (fun w =>
                                  exists (phase : string) (count : N),
                                    output_path w
                                    = os_path_join
                                        (os_path_join output_base_dir phase)
                                        (Cataract1k.output_filename n phase
                                           count))
                               videos
                    end
             end ->
             report_of_walk [(root, file :: files)] video_dir output_base_dir r)
    as Hhere.
  { intros c r Hc Hr. exists root, (file :: files), file, c.
    split; [apply list_elem_of_singleton; reflexivity |].
    split; [apply elem_of_cons; now left |]. split; assumption. }
  destruct (endswith file "_annotations_phases.csv");
    [| now apply (Hrest reports oe)].
  destruct (get_case_number_from_filename file) as [e0 | case_number] eqn:Hcase.
  { injection Hrun as <- _. constructor. }
  destruct (case_number_again file case_number video_dir Hcase)
    as (_ & _ & Hagain).
  destruct (Cataract1kBatch.video_at env _) as [cap |].
  - destruct (Cataract1k.process_video _ _ _ _) as [e0 | | dirs videos] eqn:Hpv.
    + injection Hrun as <- _. constructor.
    + destruct (Cataract1kBatch.process_files env video_dir output_base_dir
                  root files) as [rs oe'] eqn:Hrs.
      injection Hrun as <- _. constructor; [| now apply (Hrest rs oe')].
      apply (Hhere case_number); [reflexivity | auto].
    + destruct (Cataract1kBatch.process_files env video_dir output_base_dir
                  root files) as [rs oe'] eqn:Hrs.
      injection Hrun as <- _. constructor; [| now apply (Hrest rs oe')].
      apply (Hhere case_number); [reflexivity |].
      split; [reflexivity |]. split; [reflexivity |].
      exact (completed_named_after _ _ _ _ _ _ _ Hagain Hpv).
  - destruct (Cataract1kBatch.process_files env video_dir output_base_dir
                root files) as [rs oe'] eqn:Hrs.
    injection Hrun as <- _. constructor; [| now apply (Hrest rs oe')].
    apply (Hhere case_number); reflexivity.
Qed.

(** X8. Whatever [process_all_videos] reports, it reports on an
    annotation file of the walk: the video it looks for is
    [case_{number}.mp4] for the number in that file's name, a run of
    [process_video] that it records has not raised, and every video such a
    run wrote is named after that same number. *)
Theorem process_all_videos_reports (env : Cataract1kBatch.world)
    (walk : list (string * list string)) (video_dir output_base_dir : string)
    (reports : list Cataract1kBatch.report) (oe : option exn) :
  Cataract1kBatch.process_all_videos env walk video_dir output_base_dir
  = (reports, oe) ->
  Forall (report_of_walk walk video_dir output_base_dir) reports.
Proof.
  revert reports oe. induction walk as [| [root files] walk IH];
    intros reports oe Hrun.
  { injection Hrun as <- _. constructor. }
  cbn [Cataract1kBatch.process_all_videos] in Hrun.
  destruct (Cataract1kBatch.process_files env video_dir output_base_dir root
              files) as [rs oe0] eqn:Hfiles.
  assert (Forall (report_of_walk ((root, files) :: walk) video_dir
                    output_base_dir) rs) as Hrs.
  { eapply Forall_impl; [exact (process_files_reports _ _ _ _ _ _ _ Hfiles) |].
    intros r (root0 & files0 & file0 & c & Hwalk & Hrest).
    apply list_elem_of_singleton in Hwalk. injection Hwalk as -> ->.
    exists root, files, file0, c. split; [apply elem_of_cons; now left | auto]. }
  destruct oe0 as [e0 |].
  - injection Hrun as <- _. exact Hrs.
  - destruct (Cataract1kBatch.process_all_videos env walk video_dir
                output_base_dir) as [more oe'] eqn:Hmore.
    injection Hrun as <- _. apply Forall_app. split; [exact Hrs |].
    eapply Forall_impl; [exact (IH more oe' eq_refl) |].
    intros r (root0 & files0 & file0 & c & Hwalk & Hrest).
    exists root0, files0, file0, c. split; [apply elem_of_cons; now right | auto].
Qed.

Lemma process_all_videos_reports_witness :
  exists reports : list Cataract1kBatch.report,
    Cataract1kBatch.process_all_videos batch_world batch_walk "videos" "out"
    = (reports, Some IndexError)
    /\ Forall (report_of_walk batch_walk "videos" "out") reports.
Proof.
  eexists. split; [reflexivity |].
  apply (process_all_videos_reports batch_world batch_walk "videos" "out"
           _ (Some IndexError)).
  reflexivity.
Defined.

(** ** The frame-stream splitter of cataract21_subvideo.py *)

Lemma phase_mapping21_values (phase_name canonical : string) :
  Cataract21.phase_mapping !! phase_name = Some canonical ->
  Cataract21.phase_mapping !! canonical = None
  \/ Cataract21.phase_mapping !! canonical = Some canonical.
Proof.
  intros Hget.
  apply elem_of_list_to_map_2 in Hget.
  repeat
    (apply elem_of_cons in Hget as [Hget | Hget];
     [ injection Hget as -> ->; vm_compute; auto | ]).
  apply elem_of_nil in Hget. contradiction.
Qed.

(** X9. Standardising the phase names of a table twice gives what
    standardising them once gives. *)
Theorem map_phases_idempotent (df : list Cataract21.Row) :
  Cataract21.map_phases (Cataract21.map_phases df) = Cataract21.map_phases df.
Proof.
  unfold Cataract21.map_phases. rewrite map_map. apply map_ext.
  intros row. simpl. f_equal.
  destruct (Cataract21.phase_mapping !! Cataract21.Phase_Name row)
    as [canonical |] eqn:Hget; simpl.
  - destruct (phase_mapping21_values _ _ Hget) as [Hc | Hc]; now rewrite Hc.
  - now rewrite Hget.
Qed.




Lemma count_phase_app (phase : string) (l1 l2 : list string) :
  count_phase phase (l1 ++ l2)
  = (count_phase phase l1 + count_phase phase l2)%N.
Proof. unfold count_phase. rewrite filter_app, length_app. lia. Qed.

Lemma count_phase_singleton (phase p : string) :
  count_phase phase [p] = if decide (p = phase) then 1%N else 0%N.
Proof.
  unfold count_phase. rewrite filter_cons.
  destruct (decide (p = phase)); reflexivity.
Qed.

Lemma fst_alter_write_to (frame : Z) (w : nat)
    (videos : list (string * VideoWriter)) :
  fst <$> alter (Cataract21.write_to frame) w videos = fst <$> videos.
Proof.
  apply list_eq. intros k. rewrite !list_lookup_fmap.
  destruct (decide (w = k)) as [-> | Hne].
  - rewrite list_lookup_alter_eq. now destruct (videos !! k).
  - now rewrite list_lookup_alter_ne.
Qed.

Lemma lookup_alter_write_to (frame : Z) (w k : nat)
    (videos : list (string * VideoWriter)) (v : string * VideoWriter) :
  alter (Cataract21.write_to frame) w videos !! k = Some v ->
  exists v0 : string * VideoWriter,
    videos !! k = Some v0 /\ v.1 = v0.1 /\ output_path v.2 = output_path v0.2.
Proof.
  destruct (decide (w = k)) as [-> | Hne].
  - rewrite list_lookup_alter_eq.
    destruct (videos !! k) as [v0 |]; [| discriminate].
    intros [= <-]. exists v0. auto.
  - rewrite list_lookup_alter_ne by assumption. intros Hv. exists v. auto.
Qed.

Lemma named_initial (case_number output_base_dir : string) :
  named_by_occurrence case_number output_base_dir Cataract21.initial_state.
Proof.
  split; [| split].
  - intros p. apply counter_get_empty.
  - reflexivity.
  - intros k v Hk. discriminate.
Qed.

Lemma named_open_phase (cap : VideoCapture)
    (case_number output_base_dir phase : string) (frame_number : Z)
    (st : Cataract21.state) :
  named_by_occurrence case_number output_base_dir st ->
  named_by_occurrence case_number output_base_dir
    (Cataract21.open_phase cap case_number output_base_dir phase
       frame_number st).
Proof.
  intros (Hcount & Hlen & Hnames).
  unfold Cataract21.open_phase, Cataract21.create_writer.
  split; [| split];
    cbn [Cataract21.phase_counters Cataract21.videos Cataract21.dirs].
  - intros p. rewrite counter_get_incr, fmap_app, count_phase_app.
    change (fst <$> [(phase, _)]) with [phase].
    rewrite count_phase_singleton, Hcount.
    destruct (decide (phase = p)); lia.
  - rewrite !length_app. simpl. lia.
  - intros k v Hk. rewrite fmap_app.
    apply lookup_app_Some in Hk as [Hk | [Hge Hk]].
    + destruct (Hnames k v Hk) as [Hdir Hpath].
      split; [now apply lookup_app_l_Some |].
      rewrite take_app_le
        by (rewrite length_fmap; apply lookup_lt_Some in Hk; lia).
      exact Hpath.
    + destruct (k - length (Cataract21.videos st))%nat as [| k'] eqn:Hk';
        [| discriminate].
      injection Hk as <-. cbn [fst snd output_path].
      assert (k = length (Cataract21.videos st)) as -> by lia.
      split.
      * rewrite <- Hlen. rewrite lookup_app_r by lia.
        now replace (length (Cataract21.dirs st)
                     - length (Cataract21.dirs st))%nat with 0%nat by lia.
      * rewrite take_ge by (rewrite length_app, length_fmap; simpl; lia).
        rewrite count_phase_app.
        change (fst <$> [(phase, _)]) with [phase].
        rewrite count_phase_singleton, counter_get_incr, Hcount.
        destruct (decide (phase = phase)); [| congruence]. reflexivity.
Qed.

Lemma named_frame_step (cap : VideoCapture)
    (case_number output_base_dir : string) (df : list Cataract21.Row)
    (frame_number : Z) (st st' : Cataract21.state) :
  named_by_occurrence case_number output_base_dir st ->
  Cataract21.frame_step cap case_number output_base_dir df frame_number st
  = inr st' ->
  named_by_occurrence case_number output_base_dir st'.
Proof.
  intros Hnamed. unfold Cataract21.frame_step.
  destruct (df !! Z.to_nat frame_number) as [row |]; [| discriminate].
  assert (named_by_occurrence case_number output_base_dir
            (if decide (Some (Cataract21.Phase_Name row)
                        = Cataract21.previous_phase st)
             then st
             else Cataract21.open_phase cap case_number output_base_dir
                    (Cataract21.Phase_Name row) frame_number st))
    as (Hcount & Hlen & Hnames)
    by (destruct (decide _); [exact Hnamed | now apply named_open_phase]).
  destruct (Cataract21.writers _ !! Cataract21.Phase_Name row) as [w |];
    [| discriminate].
  intros [= <-]. split; [| split];
    cbn [Cataract21.phase_counters Cataract21.videos Cataract21.dirs].
  - intros p. rewrite fst_alter_write_to. apply Hcount.
  - rewrite length_alter. exact Hlen.
  - intros k v Hk. rewrite fst_alter_write_to.
    destruct (lookup_alter_write_to _ _ _ _ _ Hk) as (v0 & Hv0 & Hphase & Hpath).
    rewrite Hphase, Hpath. now apply Hnames.
Qed.

Lemma named_frame_loop (cap : VideoCapture)
    (case_number output_base_dir : string) (df : list Cataract21.Row)
    (n : nat) (frame_number : Z) (st st' : Cataract21.state) :
  named_by_occurrence case_number output_base_dir st ->
  Cataract21.frame_loop cap case_number output_base_dir df n frame_number st
  = inr st' ->
  named_by_occurrence case_number output_base_dir st'.
Proof.
  revert frame_number st. induction n as [| n IH];
    intros frame_number st Hnamed Hrun.
  - injection Hrun as <-. exact Hnamed.
  - cbn [Cataract21.frame_loop] in Hrun.
    destruct (decodes cap frame_number); [| now injection Hrun as <-].
    destruct (Cataract21.frame_step _ _ _ _ _ _) as [e | st1] eqn:Hstep;
      [discriminate |].
    eapply IH; [| exact Hrun]. eapply named_frame_step; eassumption.
Qed.

(** X11. The frame-stream splitter names its videos by occurrence: the
    video number [k], opened for the phase [p], lies in the directory of
    [p] and carries in its name the captured case number and the count of
    [p] among the videos opened up to it, the count 1 leaving no suffix. *)
Theorem process_video21_names (video_file : string)
    (df : list Cataract21.Row) (cap : VideoCapture)
    (output_base_dir case_number : string) (dirs : list string)
    (videos : list (string * VideoWriter)) :
  get_case_number_from_filename (os_path_basename video_file)
  = inr case_number ->
  Cataract21.process_video video_file df cap output_base_dir
  = Cataract21.Completed dirs videos ->
  forall (k : nat) (p : string) (w : VideoWriter),
    videos !! k = Some (p, w) ->
    dirs !! k = Some (os_path_join output_base_dir p)
    /\ output_path w
       = os_path_join (os_path_join output_base_dir p)
           (Cataract21.output_filename case_number p
              (count_phase p (take (S k) (fst <$> videos))))
    /\ (1 <= count_phase p (take (S k) (fst <$> videos)))%N.
Proof.
  intros Hcase. unfold Cataract21.process_video. rewrite Hcase.
  destruct (negb (isOpened cap)); [discriminate |].
  destruct (Cataract21.frame_loop _ _ _ _ _ _ _) as [e | st] eqn:Hrun;
    [discriminate |].
  intros [= <- <-] k p w Hk.
  destruct (named_frame_loop _ _ _ _ _ _ _ _
              (named_initial case_number output_base_dir) Hrun)
    as (_ & _ & Hnames).
  destruct (Hnames k (p, w) Hk) as [Hdir Hpath].
  split; [exact Hdir |]. split; [exact Hpath |].
  assert ((fst <$> Cataract21.videos st) !! k = Some p) as Hp
    by (rewrite list_lookup_fmap, Hk; reflexivity).
  rewrite (take_S_r _ _ _ Hp), count_phase_app, count_phase_singleton.
  destruct (decide (p = p)); [lia | congruence].
Qed.

Lemma process_video21_names_witness :
  exists (dirs : list string) (videos : list (string * VideoWriter))
         (w : VideoWriter),
    Cataract21.process_video "case_12.mp4"
      (labels_I_I_A_A_A_B ++ labels_I_I_A_A_A_B) video_40 "out"
    = Cataract21.Completed dirs videos
    /\ videos !! 4%nat = Some ("A", w)
    /\ dirs !! 4%nat = Some (os_path_join "out" "A")
    /\ output_path w
       = os_path_join (os_path_join "out" "A")
           (Cataract21.output_filename "12" "A"
              (count_phase "A" (take 5 (fst <$> videos))))
    /\ (1 <= count_phase "A" (take 5 (fst <$> videos)))%N.
Proof.
  eexists _, _, _. split; [vm_compute; reflexivity |].
  split; [reflexivity |].
  eapply (process_video21_names "case_12.mp4"
            (labels_I_I_A_A_A_B ++ labels_I_I_A_A_A_B) video_40 "out" "12");
    [reflexivity | vm_compute; reflexivity | reflexivity].
Defined.

(** ** The start-frame splitter of cataract101_subvideo.py *)

Lemma split_rows101_unknown (cap : VideoCapture)
    (case_number output_base_dir : string) (total_frames : Z) (n : N) :
  py_int_of_str case_number = inr n ->
  forall (df : list (Cataract101.Row * option string))
         (phase_counters : gmap string N),
    Exists (fun named => named.2 = None) df ->
    Cataract101.split_rows cap case_number output_base_dir total_frames
      phase_counters df = inl TypeError.
Proof.
  intros Hint.
  induction df as [| [row phase_name] df IH]; intros phase_counters Hex.
  - inversion Hex.
  - cbn [Cataract101.split_rows]. unfold Cataract101.create_writer.
    rewrite Hint. destruct phase_name as [phase |]; [| reflexivity].
    apply Exists_cons in Hex as [Hhere | Hlater]; [discriminate Hhere |].
    now rewrite IH.
Qed.

Lemma known_or_unknown (df : list Cataract101.Row) :
  Forall (fun row => is_Some (Cataract101.phase_mapping
                                !! Cataract101.Phase row)) df
  \/ exists row, row ∈ df
        /\ Cataract101.phase_mapping !! Cataract101.Phase row = None.
Proof.
  induction df as [| row df [Hall | (r & Hin & Hr)]].
  - left. constructor.
  - destruct (Cataract101.phase_mapping !! Cataract101.Phase row) eqn:Hrow.
    + left. constructor; [rewrite Hrow; eauto | exact Hall].
    + right. exists row. split; [apply elem_of_cons; now left | exact Hrow].
  - right. exists r. split; [apply elem_of_cons; now right | exact Hr].
Qed.

Lemma process_video101_total (video_file : string)
    (df : list Cataract101.Row) (cap : VideoCapture)
    (output_base_dir case_number : string) :
  get_case_number_from_filename (os_path_basename video_file)
  = inr case_number ->
  isOpened cap = true ->
  Forall (fun row => is_Some (Cataract101.phase_mapping
                                !! Cataract101.Phase row)) df ->
  exists saved : list Cataract101.Saved,
    Cataract101.process_video video_file df cap output_base_dir
    = Cataract101.Completed saved
    /\ length saved = length df.
Proof.
  intros Hcase Hopen Hknown.
  destruct (case_number_is_int _ _ Hcase) as [n Hn].
  destruct (split_rows101_spec cap case_number output_base_dir
              (CAP_PROP_FRAME_COUNT cap) n Hn
              (Cataract101.map_phase_numbers_to_names df) ∅)
    as (saved & Hrun & Hlen & _).
  { unfold Cataract101.map_phase_numbers_to_names.
    apply Forall_fmap. eapply Forall_impl; [exact Hknown |].
    intros row Hrow. exact Hrow. }
  exists saved. split.
  { unfold Cataract101.process_video. now rewrite Hcase, Hopen, Hrun. }
  unfold Cataract101.map_phase_numbers_to_names in Hlen.
  now rewrite length_map in Hlen.
Qed.

(** X12. The outcomes of the start-frame [process_video], failures inside
    pandas and OpenCV aside.  It raises [ValueError] when the video's base
    name holds no case number and [TypeError] when the video opens and
    some row carries a phase number outside the table 0..10; it returns
    without output when the video does not open; otherwise it completes
    with one video per row, an empty table giving none. *)
Theorem process_video101_outcomes (video_file : string)
    (df : list Cataract101.Row) (cap : VideoCapture)
    (output_base_dir : string) :
  match Cataract101.process_video video_file df cap output_base_dir with
  | Cataract101.Raised e =>
      (e = ValueError
       /\ get_case_number_from_filename (os_path_basename video_file)
          = inl ValueError)
      \/ (e = TypeError
          /\ isOpened cap = true
          /\ exists row, row ∈ df
               /\ Cataract101.phase_mapping !! Cataract101.Phase row = None)
  | Cataract101.NotOpened => isOpened cap = false
  | Cataract101.Completed saved =>
      isOpened cap = true
      /\ length saved = length df
      /\ Forall (fun row => is_Some (Cataract101.phase_mapping
                                       !! Cataract101.Phase row)) df
  end.
Proof.
  destruct (get_case_number_from_filename (os_path_basename video_file))
    as [e | case_number] eqn:Hcase.
  { unfold Cataract101.process_video. rewrite Hcase. left.
    now rewrite (get_case_number_error _ _ Hcase). }
  destruct (isOpened cap) eqn:Hopen;
    [| unfold Cataract101.process_video; now rewrite Hcase, Hopen].
  destruct (known_or_unknown df) as [Hknown | (row & Hin & Hrow)].
  - destruct (process_video101_total video_file df cap output_base_dir
                case_number Hcase Hopen Hknown) as (saved & -> & Hlen).
    auto.
  - destruct (case_number_is_int _ _ Hcase) as [n Hn].
    unfold Cataract101.process_video. rewrite Hcase, Hopen. simpl negb.
    cbv iota.
    rewrite (split_rows101_unknown cap case_number output_base_dir
               (CAP_PROP_FRAME_COUNT cap) n Hn).
    + right. split; [reflexivity |]. split; [reflexivity |]. eauto.
    + unfold Cataract101.map_phase_numbers_to_names.
      apply Exists_exists.
      exists (row, Cataract101.phase_mapping !! Cataract101.Phase row).
      split; [| exact Hrow].
      apply list_elem_of_In, in_map_iff. exists row.
      split; [reflexivity | now apply list_elem_of_In].
Qed.

Lemma split_rows101_chain (cap : VideoCapture)
    (case_number output_base_dir : string) (total_frames : Z) :
  forall (df : list (Cataract101.Row * option string))
         (row : Cataract101.Row) (phase_name : option string)
         (phase_counters : gmap string N) (saved : list Cataract101.Saved),
    Cataract101.split_rows cap case_number output_base_dir total_frames
      phase_counters ((row, phase_name) :: df) = inr saved ->
    chain (Cataract101.FrameNo row) (timeline101 saved) (total_frames - 1).
Proof.
  induction df as [| [next q] df IH];
    intros row phase_name phase_counters saved Hrun.
  - cbn [Cataract101.split_rows] in Hrun.
    destruct (Cataract101.create_writer _ _ _ _) as [e | [[pc dir] path]];
      [discriminate |].
    injection Hrun as <-. apply chain_one.
  - remember ((next, q) :: df) as rest eqn:Hrest.
    cbn [Cataract101.split_rows] in Hrun.
    destruct (Cataract101.create_writer _ _ _ _) as [e | [[pc dir] path]];
      [discriminate |].
    destruct (Cataract101.split_rows cap case_number output_base_dir
                total_frames pc rest) as [e | saved'] eqn:Hrec;
      [discriminate |].
    injection Hrun as <-. subst rest.
    apply IH in Hrec. simpl. apply chain_cons.
    replace (Cataract101.FrameNo next - 1 + 1)
      with (Cataract101.FrameNo next) by lia.
    exact Hrec.
Qed.

(** X13. The intervals of a completed start-frame run cover the video
    from the first row's start on: every interval ends one frame before
    the next one starts, the first starts at the first row's [FrameNo] and
    the last ends at the frame count minus 1, in whatever order the rows
    come. *)
Theorem process_video101_covers (video_file : string)
    (row : Cataract101.Row) (df : list Cataract101.Row) (cap : VideoCapture)
    (output_base_dir : string) (saved : list Cataract101.Saved) :
  Cataract101.process_video video_file (row :: df) cap output_base_dir
  = Cataract101.Completed saved ->
  gap_free (timeline101 saved)
  /\ first_start (timeline101 saved) = Some (Cataract101.FrameNo row)
  /\ last_end (timeline101 saved) = Some (CAP_PROP_FRAME_COUNT cap - 1).
Proof.
  unfold Cataract101.process_video.
  destruct (get_case_number_from_filename _) as [e | case_number];
    [discriminate |].
  destruct (negb (isOpened cap)); [discriminate |].
  destruct (Cataract101.split_rows _ _ _ _ _ _) as [e | saved'] eqn:Hrun;
    [discriminate |].
  intros [= <-]. apply split_rows101_chain in Hrun.
  split; [exact (chain_gap_free _ _ _ Hrun) |].
  split; [exact (chain_first_start _ _ _ Hrun) |].
  exact (chain_last_end _ _ _ Hrun).
Qed.

Lemma process_video101_covers_witness :
  exists saved : list Cataract101.Saved,
    Cataract101.process_video "case_269.mp4" rows101 video_40 "out"
    = Cataract101.Completed saved
    /\ gap_free (timeline101 saved)
    /\ first_start (timeline101 saved)
       = Some (Cataract101.FrameNo
                 {| Cataract101.FrameNo := 0; Cataract101.Phase := 0 |})
    /\ last_end (timeline101 saved)
       = Some (CAP_PROP_FRAME_COUNT video_40 - 1).
Proof.
  eexists. split; [vm_compute; reflexivity |].
  apply (process_video101_covers "case_269.mp4"
           {| Cataract101.FrameNo := 0; Cataract101.Phase := 0 |}
           [ {| Cataract101.FrameNo := 5; Cataract101.Phase := 1 |};
             {| Cataract101.FrameNo := 9; Cataract101.Phase := 3 |} ]
           video_40 "out").
  vm_compute. reflexivity.
Defined.

(** ** [generate_csv_files] *)

Lemma insert_by_frame_perm (row : Cataract101Csv.Row)
    (sorted : list Cataract101Csv.Row) :
  Cataract101Csv.insert_by_frame row sorted ≡ₚ row :: sorted.
Proof.
  induction sorted as [| r sorted IH]; simpl; [reflexivity |].
  destruct (_ <=? _)%Z; [reflexivity |].
  rewrite IH. apply Permutation_swap.
Qed.

Lemma sort_values101_perm (group : list Cataract101Csv.Row) :
  Cataract101Csv.sort_values group ≡ₚ group.
Proof.
  unfold Cataract101Csv.sort_values.
  induction group as [| row group IH]; simpl; [reflexivity |].
  rewrite insert_by_frame_perm. now rewrite IH.
Qed.

Lemma insert_by_frame_sorted (row : Cataract101Csv.Row)
    (sorted : list Cataract101Csv.Row) :
  Sorted (fun a b => Cataract101Csv.FrameNo a <= Cataract101Csv.FrameNo b)
    sorted ->
  Sorted (fun a b => Cataract101Csv.FrameNo a <= Cataract101Csv.FrameNo b)
    (Cataract101Csv.insert_by_frame row sorted).
Proof.
  induction 1 as [| r sorted Hs IH Hhd]; simpl; [repeat constructor |].
  destruct (Z.leb_spec (Cataract101Csv.FrameNo row) (Cataract101Csv.FrameNo r)).
  - repeat constructor; assumption.
  - constructor; [exact IH |].
    destruct sorted as [| r' sorted]; simpl.
    + constructor. lia.
    + inversion Hhd; subst.
      destruct (_ <=? _)%Z; constructor; (lia || assumption).
Qed.

Lemma sort_values101_sorted (group : list Cataract101Csv.Row) :
  Sorted (fun a b => Cataract101Csv.FrameNo a <= Cataract101Csv.FrameNo b)
    (Cataract101Csv.sort_values group).
Proof.
  unfold Cataract101Csv.sort_values.
  induction group as [| row group IH]; simpl; [constructor |].
  now apply insert_by_frame_sorted.
Qed.

Lemma csv_path_inj (output_directory : string) (id1 id2 : Z) :
  os_path_join output_directory ("case_" ++ pretty id1 ++ ".csv")
  = os_path_join output_directory ("case_" ++ pretty id2 ++ ".csv") ->
  id1 = id2.
Proof.
  unfold os_path_join.
  change (starts_with_sep ("case_" ++ pretty id1 ++ ".csv")) with false.
  change (starts_with_sep ("case_" ++ pretty id2 ++ ".csv")) with false.
  cbv iota. intros Heq.
  destruct (_ || _)%bool; repeat apply append_inv_head in Heq;
    apply append_inv_tail in Heq; now apply (inj pretty).
Qed.

(** X14. [generate_csv_files] leaves one table per video of the main
    table, at [case_{VideoID}.csv] in the output directory: it starts with
    the Idle row at frame 0, the rows after it are the rows of that video
    and no others, sorted by [FrameNo]. *)
Theorem generate_csv_files_tables (df : list Cataract101Csv.Row)
    (output_directory : string) (row : Cataract101Csv.Row) :
  row ∈ df ->
  exists rest : list Cataract101Csv.Row,
    Cataract101Csv.generate_csv_files df output_directory
      !! os_path_join output_directory
           ("case_" ++ pretty (Cataract101Csv.VideoID row) ++ ".csv")
    = Some ({| Cataract101.FrameNo := 0; Cataract101.Phase := 0 |}
            :: map (fun r => {| Cataract101.FrameNo := Cataract101Csv.FrameNo r;
                                Cataract101.Phase := Cataract101Csv.Phase r |})
                 rest)
    /\ rest ≡ₚ filter (fun r => Cataract101Csv.VideoID r
                                = Cataract101Csv.VideoID row) df
    /\ Sorted (fun a b => Cataract101Csv.FrameNo a <= Cataract101Csv.FrameNo b)
         rest.
Proof.
  intros Hin.
  exists (Cataract101Csv.sort_values
            (Cataract101Csv.group_of df (Cataract101Csv.VideoID row))).
  split; [| split; [apply sort_values101_perm | apply sort_values101_sorted]].
  unfold Cataract101Csv.generate_csv_files.
  destruct (list_to_map _ !! _) as [table |] eqn:Hget.
  - apply elem_of_list_to_map_2, list_elem_of_In, in_map_iff in Hget
      as (row' & Heq & _).
    injection Heq as Hpath <-.
    apply csv_path_inj in Hpath. now rewrite Hpath.
  - exfalso. apply not_elem_of_list_to_map in Hget. apply Hget.
    apply list_elem_of_fmap. eexists (_, _). split; [reflexivity |].
    apply list_elem_of_In, in_map_iff. exists row.
    split; [reflexivity | now apply list_elem_of_In].
Qed.

Lemma generate_csv_files_tables_witness :
  exists rest : list Cataract101Csv.Row,
    Cataract101Csv.generate_csv_files main_table "csv"
      !! os_path_join "csv" ("case_" ++ pretty 269%Z ++ ".csv")
    = Some ({| Cataract101.FrameNo := 0; Cataract101.Phase := 0 |}
            :: map (fun r => {| Cataract101.FrameNo := Cataract101Csv.FrameNo r;
                                Cataract101.Phase := Cataract101Csv.Phase r |})
                 rest)
    /\ rest ≡ₚ filter (fun r => Cataract101Csv.VideoID r = 269) main_table
    /\ Sorted (fun a b => Cataract101Csv.FrameNo a <= Cataract101Csv.FrameNo b)
         rest.
Proof.
  apply (generate_csv_files_tables main_table "csv"
           {| Cataract101Csv.VideoID := 269; Cataract101Csv.FrameNo := 120;
              Cataract101Csv.Phase := 2 |}).
  apply elem_of_cons. left. reflexivity.
Defined.

(** ** The sampler of frame_extractor.py *)

Lemma position_zero (start_frame : Z) (rate : Q) :
  py_int (position start_frame rate 0) = start_frame.
Proof.
  destruct rate as [n d]. unfold position, py_int, Qplus, Qmult. simpl.
  rewrite Z.add_0_r. apply Z.quot_mul. discriminate.
Qed.

(** X15. Every phase with a positive span and a positive [max_frames]
    is sampled at least once, first at its start frame. *)
Theorem first_sample_is_start (start_frame end_frame max_frames : Z)
    (min_sampling_rate fps : Q) :
  0 < end_frame - start_frame ->
  0 < max_frames ->
  exists rest : list Z,
    FrameExtractor.frame_indices start_frame end_frame max_frames
      min_sampling_rate fps = inr (Some (start_frame :: rest)).
Proof.
  intros Hspan Hmax.
  destruct (sampling_rate_pos (end_frame - start_frame) max_frames
              min_sampling_rate fps Hspan Hmax) as (rate & Hrate & _).
  unfold FrameExtractor.frame_indices.
  destruct (Z.leb_spec (end_frame - start_frame) 0); [lia |].
  rewrite Hrate.
  destruct (Z.to_nat max_frames) as [| n] eqn:Hn; [lia |].
  cbn [FrameExtractor.sample_loop].
  fold (position start_frame rate 0). rewrite position_zero.
  destruct (Z.ltb_spec end_frame start_frame); [lia |].
  eexists. reflexivity.
Qed.

Lemma first_sample_is_start_witness :
  exists rest : list Z,
    FrameExtractor.frame_indices 100 113 FrameExtractor.MAX_FRAMES
      FrameExtractor.MIN_SAMPLING_RATE 25 = inr (Some (100 :: rest)).
Proof.
  apply (first_sample_is_start 100 113 FrameExtractor.MAX_FRAMES
           FrameExtractor.MIN_SAMPLING_RATE 25);
    unfold FrameExtractor.MAX_FRAMES; lia.
Defined.

Section FullSampling.

Variables (start_frame end_frame max_frames : Z) (rate : Q).
Hypothesis start_nonneg : 0 <= start_frame.
Hypothesis rate_pos : (0 < rate)%Q.
Hypothesis max_pos : 0 < max_frames.
Hypothesis rate_even :
  (inject_Z max_frames * rate == inject_Z (end_frame - start_frame))%Q.

Lemma frame_num_before_end (i : Z) :
  0 <= i < max_frames ->
  py_int (position start_frame rate i) < end_frame.
Proof.
  intros Hi.
  rewrite py_int_floor
    by (apply position_nonneg; [exact start_nonneg | exact rate_pos | lia]).
  pose proof (Qfloor_le (position start_frame rate i)) as Hfloor.
  assert (inject_Z i + 1 <= inject_Z max_frames)%Q as Hle.
  { change 1%Q with (inject_Z 1). rewrite <- inject_Z_plus, <- Zle_Qle. lia. }
  assert (inject_Z i * rate <= (inject_Z max_frames - 1) * rate)%Q as Hmul
    by (apply Qmult_le_compat_r; lra).
  assert (inject_Z (end_frame - start_frame)
          == inject_Z end_frame - inject_Z start_frame)%Q as Hspan
    by (unfold Z.sub; rewrite inject_Z_plus, inject_Z_opp; ring).
  rewrite Zlt_Qlt. unfold position in *. lra.
Qed.

Lemma sample_loop_full (n : nat) (i : Z) :
  0 <= i -> i + Z.of_nat n <= max_frames ->
  length (FrameExtractor.sample_loop start_frame end_frame rate n i) = n
  /\ Forall (fun frame_num => frame_num < end_frame)
       (FrameExtractor.sample_loop start_frame end_frame rate n i).
Proof.
  revert i. induction n as [| n IH]; intros i Hi Hn; [split; constructor |].
  cbn [FrameExtractor.sample_loop]. fold (position start_frame rate i).
  pose proof (frame_num_before_end i ltac:(lia)) as Hlt.
  destruct (Z.ltb_spec end_frame (py_int (position start_frame rate i)));
    [lia |].
  destruct (IH (i + 1) ltac:(lia) ltac:(lia)) as [Hlen Hall].
  split; [simpl; now rewrite Hlen | now constructor].
Qed.

End FullSampling.

(** X16. A phase long enough for the even step,
    [min_sampling_rate * fps <= (end_frame - start_frame) / max_frames],
    starting at frame 0 or later, yields exactly [max_frames] frame
    numbers, all before [end_frame]: the last frame of the phase is not
    sampled. *)
Theorem long_phase_fully_sampled (start_frame end_frame max_frames : Z)
    (min_sampling_rate fps : Q) :
  0 <= start_frame ->
  0 < end_frame - start_frame ->
  0 < max_frames ->
  (min_sampling_rate * fps
   <= inject_Z (end_frame - start_frame) / inject_Z max_frames)%Q ->
  exists indices : list Z,
    FrameExtractor.frame_indices start_frame end_frame max_frames
      min_sampling_rate fps = inr (Some indices)
    /\ Z.of_nat (length indices) = max_frames
    /\ forall frame_num, frame_num ∈ indices ->
         start_frame <= frame_num < end_frame.
Proof.
  intros Hstart Hspan Hmax Hlong.
  set (rate := (inject_Z (end_frame - start_frame) / inject_Z max_frames)%Q).
  assert (0 < inject_Z max_frames)%Q as Hmaxq
    by (change 0%Q with (inject_Z 0); now rewrite <- Zlt_Qlt).
  assert (0 < rate)%Q as Hpos.
  { apply Qlt_shift_div_l; [exact Hmaxq |]. rewrite Qmult_0_l.
    change 0%Q with (inject_Z 0). now rewrite <- Zlt_Qlt. }
  assert (inject_Z max_frames * rate == inject_Z (end_frame - start_frame))%Q
    as Heven by (unfold rate; apply Qmult_div_r; lra).
  exists (FrameExtractor.sample_loop start_frame end_frame rate
            (Z.to_nat max_frames) 0).
  split.
  { unfold FrameExtractor.frame_indices, FrameExtractor.sampling_rate.
    destruct (Z.leb_spec (end_frame - start_frame) 0); [lia |].
    destruct (Z.eqb_spec max_frames 0); [lia |].
    fold rate. fold rate in Hlong.
    destruct (Qlt_le_dec rate (min_sampling_rate * fps)); [lra | reflexivity]. }
  destruct (sample_loop_full start_frame end_frame max_frames rate Hstart
              Hpos Heven (Z.to_nat max_frames) 0 (Z.le_refl 0) ltac:(lia))
    as [Hlen Hbefore].
  split; [lia |].
  intros frame_num Hin.
  pose proof (sample_loop_range start_frame end_frame rate Hstart Hpos
                (Z.to_nat max_frames) 0 (Z.le_refl 0)) as Hrange.
  rewrite Forall_forall in Hrange, Hbefore.
  specialize (Hrange frame_num Hin). specialize (Hbefore frame_num Hin). lia.
Qed.

Lemma long_phase_fully_sampled_witness :
  exists indices : list Z,
    FrameExtractor.frame_indices 0 300 FrameExtractor.MAX_FRAMES
      FrameExtractor.MIN_SAMPLING_RATE 25 = inr (Some indices)
    /\ Z.of_nat (length indices) = FrameExtractor.MAX_FRAMES
    /\ forall frame_num, frame_num ∈ indices -> 0 <= frame_num < 300.
Proof.
  apply (long_phase_fully_sampled 0 300 FrameExtractor.MAX_FRAMES
           FrameExtractor.MIN_SAMPLING_RATE 25);
    [lia | lia | unfold FrameExtractor.MAX_FRAMES; lia |].
  vm_compute. discriminate.
Defined.





(** X18. [save_frames] saves at most [max_frames] images for each row of
    the table, each of a frame that decodes. *)
Theorem save_frames_bound (cap : VideoCapture) (case_id output_dir : string)
    (max_frames : Z) (min_sampling_rate : Q) (df : list FrameExtractor.Row)
    (images : list (string * Z)) :
  FrameExtractor.save_frames cap case_id df output_dir max_frames
    min_sampling_rate = inr (Some images) ->
  (length images <= Z.to_nat max_frames * length df)%nat
  /\ Forall (fun image => decodes cap image.2 = true) images.
Proof.
  unfold FrameExtractor.save_frames.
  destruct (negb (isOpened cap)); [discriminate |].
  destruct (Qeq_bool (CAP_PROP_FPS cap) 0); [discriminate |].
  destruct (FrameExtractor.save_rows _ _ _ _ _ _) as [e | images'] eqn:Hrows;
    [discriminate |].
  intros [= <-]. revert images' Hrows.
  induction df as [| row df IH]; intros images Hrows.
  - injection Hrows as <-. split; [simpl; lia | constructor].
  - cbn [FrameExtractor.save_rows] in Hrows.
    destruct (FrameExtractor.save_phase _ _ _ _ _ _) as [e | here] eqn:Hphase;
      [discriminate |].
    destruct (FrameExtractor.save_rows _ _ _ _ _ _) as [e | more]; [discriminate |].
    injection Hrows as <-. destruct (IH more eq_refl) as [Hlen Hdec].
    assert ((length here <= Z.to_nat max_frames)%nat
            /\ Forall (fun image => decodes cap image.2 = true) here)
      as [Hlen' Hdec'].
    { unfold FrameExtractor.save_phase, FrameExtractor.frame_indices in Hphase.
      destruct (_ <=? 0)%Z.
      { injection Hphase as <-. split; [simpl; lia | constructor]. }
      destruct (FrameExtractor.sampling_rate _ _ _ _) as [e | rate];
        [discriminate |].
      injection Hphase as <-. split.
      - rewrite length_map.
        etransitivity; [apply length_filter |]. apply sample_loop_length.
      - apply Forall_forall. intros image Hin.
        apply list_elem_of_In, in_map_iff in Hin as (frame_num & <- & Hin).
        simpl.
        apply list_elem_of_In, list_elem_of_filter in Hin as [Hdecodes _].
        exact Hdecodes. }
    split; [rewrite length_app; simpl; lia | now apply Forall_app].
Qed.

Lemma save_frames_bound_witness :
  exists images : list (string * Z),
    FrameExtractor.save_frames video_40_bad_15 "case" phase_rows "out" 3
      FrameExtractor.MIN_SAMPLING_RATE = inr (Some images)
    /\ (length images <= Z.to_nat 3 * length phase_rows)%nat
    /\ Forall (fun image => decodes video_40_bad_15 image.2 = true) images.
Proof.
  eexists. split; [vm_compute; reflexivity |].
  apply (save_frames_bound video_40_bad_15 "case" "out" 3
           FrameExtractor.MIN_SAMPLING_RATE phase_rows).
  vm_compute. reflexivity.
Defined.

(** ** [process_phases] of phase_csv.py *)

Lemma phases_loop_id (video_name : string) (df : list PhaseCsv.Row) (s e : Z) :
  chain s (timeline_csv df) e -> PhaseCsv.phases_loop video_name df = df.
Proof.
  revert s. induction df as [| row df IH]; intros s Hchain; [reflexivity |].
  simpl in Hchain. inversion Hchain as [| ? ? ? ? Hrest]; subst.
  - destruct df; [reflexivity | discriminate].
  - destruct df as [| next df]; [inversion Hrest |].
    pose proof (chain_first_start _ _ _ Hrest) as Hnext.
    injection Hnext as Hnext.
    cbn [PhaseCsv.phases_loop].
    destruct (Z.ltb_spec 1 (PhaseCsv.Start_Frame next - PhaseCsv.End_Frame row));
      [lia |].
    cbn [app]. f_equal. exact (IH _ Hrest).
Qed.

Lemma process_phases_fixed (df : list PhaseCsv.Row) (e : Z) :
  chain 0 (timeline_csv df) e ->
  well_formed (timeline_csv df) ->
  PhaseCsv.process_phases df = inr df.
Proof.
  intros Hchain Hwf.
  assert (PhaseCsv.sort_values df = df) as Hsort
    by (apply sort_values_sorted, Sorted_lt_le;
        eapply chain_start_sorted; eassumption).
  destruct df as [| row df]; [inversion Hchain |].
  unfold PhaseCsv.process_phases. rewrite Hsort.
  pose proof (chain_first_start _ _ _ Hchain) as Hfirst.
  injection Hfirst as Hfirst.
  destruct (Z.ltb_spec 0 (PhaseCsv.Start_Frame row)); [lia |].
  cbn [app]. rewrite (phases_loop_id _ _ _ _ Hchain). now rewrite Hsort.
Qed.

Lemma process_phases_chain_wf (row : PhaseCsv.Row) (df : list PhaseCsv.Row) :
  separated (timeline_csv (row :: df)) ->
  well_formed (timeline_csv (row :: df)) ->
  0 <= PhaseCsv.Start_Frame row ->
  exists (new_df : list PhaseCsv.Row) (e : Z),
    PhaseCsv.process_phases (row :: df) = inr new_df
    /\ chain 0 (timeline_csv new_df) e
    /\ well_formed (timeline_csv new_df).
Proof.
  intros Hsep Hwf Hnonneg.
  destruct (last (row :: df)) as [last_row |] eqn:Hlast;
    [| apply last_None in Hlast; discriminate].
  pose proof (phases_loop_chain (PhaseCsv.case row) row df last_row Hsep Hlast)
    as Hchain.
  pose proof (phases_loop_well_formed (PhaseCsv.case row) (row :: df) Hwf)
    as Hwf'.
  unfold PhaseCsv.process_phases.
  rewrite (sort_values_sorted (row :: df)) by now apply separated_sorted.
  destruct (Z.ltb_spec 0 (PhaseCsv.Start_Frame row)) as [Hpos | Hzero].
  - match goal with
    | |- context [PhaseCsv.sort_values ?l] =>
        assert (chain 0 (timeline_csv l) (PhaseCsv.End_Frame last_row)
                /\ well_formed (timeline_csv l)) as [Hall Hwfall]
    end.
    { split.
      - simpl. apply chain_cons.
        replace (PhaseCsv.Start_Frame row - 1 + 1)
          with (PhaseCsv.Start_Frame row) by lia.
        exact Hchain.
      - simpl. apply Forall_cons. split; [simpl; lia | exact Hwf']. }
    rewrite sort_values_sorted
      by (apply Sorted_lt_le; eapply chain_start_sorted; eassumption).
    eauto.
  - replace 0 with (PhaseCsv.Start_Frame row) by lia.
    cbn [app].
    rewrite sort_values_sorted
      by (apply Sorted_lt_le; eapply chain_start_sorted; eassumption).
    eauto.
Qed.

(** X19. On well-formed rows that do not overlap, the first starting at
    frame 0 or later, [process_phases] is idempotent: the table it writes
    has no gap left from frame 0 on, and running it on that table gives
    the table back. *)
Theorem process_phases_idempotent (row : PhaseCsv.Row)
    (df : list PhaseCsv.Row) :
  separated (timeline_csv (row :: df)) ->
  well_formed (timeline_csv (row :: df)) ->
  0 <= PhaseCsv.Start_Frame row ->
  exists new_df : list PhaseCsv.Row,
    PhaseCsv.process_phases (row :: df) = inr new_df
    /\ PhaseCsv.process_phases new_df = inr new_df.
Proof.
  intros Hsep Hwf Hnonneg.
  destruct (process_phases_chain_wf row df Hsep Hwf Hnonneg)
    as (new_df & e & Hrun & Hchain & Hwf').
  exists new_df. split; [exact Hrun |].
  exact (process_phases_fixed new_df e Hchain Hwf').
Qed.

Lemma process_phases_idempotent_witness :
  exists new_df : list PhaseCsv.Row,
    PhaseCsv.process_phases (rows_csv 10 20 25 30) = inr new_df
    /\ PhaseCsv.process_phases new_df = inr new_df.
Proof.
  apply (process_phases_idempotent (row_csv "X" 10 20) [row_csv "Y" 25 30]).
  - simpl. lia.
  - repeat constructor; simpl; lia.
  - simpl. lia.
Defined.

(** ** What the videos of the interval splitters hold *)








(** ** Frame coverage *)








Lemma count_phase_cons (phase p : string) (phases : list string) :
  count_phase phase (p :: phases)
  = ((if decide (p = phase) then 1 else 0) + count_phase phase phases)%N.
Proof.
  unfold count_phase. rewrite filter_cons.
  destruct (decide (p = phase)); simpl; lia.
Qed.

Lemma split_rows101_names (cap : VideoCapture)
    (case_number output_base_dir : string) (total_frames : Z) (n : N) :
  py_int_of_str case_number = inr n ->
  forall (df : list (Cataract101.Row * option string))
         (phase_counters : gmap string N) (saved : list Cataract101.Saved),
    Cataract101.split_rows cap case_number output_base_dir total_frames
      phase_counters df = inr saved ->
    forall (k : nat) (sv : Cataract101.Saved),
      saved !! k = Some sv ->
      Cataract101.saved_dir sv
      = os_path_join output_base_dir (Cataract101.saved_phase sv)
      /\ output_path (Cataract101.saved_video sv)
         = os_path_join
             (os_path_join output_base_dir (Cataract101.saved_phase sv))
             (Cataract101.output_filename n (Cataract101.saved_phase sv)
                (counter_get phase_counters (Cataract101.saved_phase sv)
                 + count_phase (Cataract101.saved_phase sv)
                     (take (S k) (Cataract101.saved_phase <$> saved)))).
Proof.
  intros Hint.
  induction df as [| [row phase_name] df IH]; intros phase_counters saved Hrun.
  - injection Hrun as <-. intros k sv Hk. discriminate.
  - cbn [Cataract101.split_rows] in Hrun.
    unfold Cataract101.create_writer in Hrun. rewrite Hint in Hrun.
    destruct phase_name as [phase |]; [| discriminate].
    destruct (Cataract101.split_rows cap case_number output_base_dir
                total_frames (counter_incr phase_counters phase) df)
      as [e | saved'] eqn:Hrec; [discriminate |].
    injection Hrun as <-. intros [| k] sv Hk.
    + injection Hk as <-. cbn. split; [reflexivity |].
      rewrite count_phase_cons, counter_get_incr.
      destruct (decide (phase = phase)); [| congruence].
      reflexivity.
    + destruct (IH _ _ Hrec k sv Hk) as [Hdir Hpath].
      split; [exact Hdir |]. rewrite Hpath. do 2 f_equal.
      rewrite fmap_cons. cbn [take Cataract101.saved_phase default].
      rewrite count_phase_cons, counter_get_incr.
      destruct (decide (phase = Cataract101.saved_phase sv)); lia.
Qed.

(** X23. The start-frame splitter names its videos by occurrence: the
    video of the row number [k] lies in the directory of its phase and
    carries in its name the case number, padded by [:04d], and the count
    of that phase among the rows up to it. *)
Theorem process_video101_names (video_file : string)
    (df : list Cataract101.Row) (cap : VideoCapture)
    (output_base_dir case_number : string) (saved : list Cataract101.Saved) :
  get_case_number_from_filename (os_path_basename video_file)
  = inr case_number ->
  Cataract101.process_video video_file df cap output_base_dir
  = Cataract101.Completed saved ->
  exists n : N,
    py_int_of_str case_number = inr n
    /\ forall (k : nat) (sv : Cataract101.Saved),
        saved !! k = Some sv ->
        Cataract101.saved_dir sv
        = os_path_join output_base_dir (Cataract101.saved_phase sv)
        /\ output_path (Cataract101.saved_video sv)
           = os_path_join
               (os_path_join output_base_dir (Cataract101.saved_phase sv))
               (Cataract101.output_filename n (Cataract101.saved_phase sv)
                  (count_phase (Cataract101.saved_phase sv)
                     (take (S k) (Cataract101.saved_phase <$> saved)))).
Proof.
  intros Hcase Hrun.
  destruct (case_number_is_int _ _ Hcase) as [n Hn].
  exists n. split; [exact Hn |].
  unfold Cataract101.process_video in Hrun. rewrite Hcase in Hrun.
  destruct (negb (isOpened cap)); [discriminate |].
  destruct (Cataract101.split_rows _ _ _ _ _ _) as [e | saved'] eqn:Hsplit;
    [discriminate |].
  injection Hrun as ->. intros k sv Hk.
  destruct (split_rows101_names cap case_number output_base_dir _ n Hn _ _ _
              Hsplit k sv Hk) as [Hdir Hpath].
  split; [exact Hdir |].
  now rewrite counter_get_empty, N.add_0_l in Hpath.
Qed.

Lemma process_video101_names_witness :
  exists (saved : list Cataract101.Saved) (n : N),
    Cataract101.process_video "case_269.mp4" rows101 video_40 "out"
    = Cataract101.Completed saved
    /\ py_int_of_str "269" = inr n
    /\ forall (k : nat) (sv : Cataract101.Saved),
        saved !! k = Some sv ->
        Cataract101.saved_dir sv
        = os_path_join "out" (Cataract101.saved_phase sv)
        /\ output_path (Cataract101.saved_video sv)
           = os_path_join (os_path_join "out" (Cataract101.saved_phase sv))
               (Cataract101.output_filename n (Cataract101.saved_phase sv)
                  (count_phase (Cataract101.saved_phase sv)
                     (take (S k) (Cataract101.saved_phase <$> saved)))).
Proof.
  eexists.
  destruct (process_video101_names "case_269.mp4" rows101 video_40 "out"
              "269" _ eq_refl eq_refl) as (n & Hn & Hnames).
  exists n. split; [vm_compute; reflexivity |]. split; [exact Hn |].
  exact Hnames.
Defined.
